(** * Reddit-Clone: the in-memory engine (internal/engine/engine.go)

    A shallow embedding of [RedditEngine] and of the entity records of
    internal/models/models.go, followed by the properties of the engine's
    operations: registration, membership, posting, commenting, voting,
    feed assembly and direct messages.

    Conventions of the embedding.
    - [sync.Map] is a finite map ([gmap]) from string keys; the entities
      are stored behind pointers, so an in-place update of an entity is an
      [alter] of the map at the key the pointer was loaded from.
    - [int64] and [int] fields are [Z]; [++] and [--] wrap around at 64 bits.
    - What the environment decides ([generateID], [time.Now], the outcome of
      [bcrypt.GenerateFromPassword]) is an explicit argument of the operation
      that asks for it.
    - An operation is a computation in a state monad over the engine whose
      failures keep the state reached so far: an error returned after a
      store would leave the store done. *)

From stdpp Require Import gmap strings list fin_maps pretty.
From Stdlib Require Import ZArith Lia Ascii.

Local Open Scope Z_scope.

(** ** Machine integers *)

Definition wrap64 (z : Z) : Z := (z + 2 ^ 63) mod 2 ^ 64 - 2 ^ 63.

Definition int64_range (z : Z) : Prop := - 2 ^ 63 <= z < 2 ^ 63.

(** ** internal/models/models.go *)

Module User.
Record t := mk {
  ID : string;
  Username : string;
  Password : string;
  Karma : Z;
  IsOnline : bool;
  CreatedAt : Z
}.
End User.

Module SubReddit.
Record t := mk {
  ID : string;
  Name : string;
  Description : string;
  CreatorID : string;
  MemberCount : Z;
  PostCount : Z;
  CreatedAt : Z;
  Members : gmap string bool
}.

Definition set_Members (f : gmap string bool → gmap string bool) (s : t) : t :=
  mk (ID s) (Name s) (Description s) (CreatorID s) (MemberCount s)
     (PostCount s) (CreatedAt s) (f (Members s)).
End SubReddit.

Module Post.
Record t := mk {
  ID : string;
  Title : string;
  Content : string;
  AuthorID : string;
  SubRedditID : string;
  IsRepost : bool;
  OriginalID : string;
  Upvotes : Z;
  Downvotes : Z;
  CommentCount : Z;
  CreatedAt : Z
}.

Definition set_Upvotes (f : Z → Z) (p : t) : t :=
  mk (ID p) (Title p) (Content p) (AuthorID p) (SubRedditID p) (IsRepost p)
     (OriginalID p) (f (Upvotes p)) (Downvotes p) (CommentCount p) (CreatedAt p).

Definition set_Downvotes (f : Z → Z) (p : t) : t :=
  mk (ID p) (Title p) (Content p) (AuthorID p) (SubRedditID p) (IsRepost p)
     (OriginalID p) (Upvotes p) (f (Downvotes p)) (CommentCount p) (CreatedAt p).
End Post.

Module Comment.
Record t := mk {
  ID : string;
  Content : string;
  AuthorID : string;
  PostID : string;
  ParentID : option string;
  Depth : Z;
  Upvotes : Z;
  Downvotes : Z;
  CreatedAt : Z
}.

Definition set_Upvotes (f : Z → Z) (c : t) : t :=
  mk (ID c) (Content c) (AuthorID c) (PostID c) (ParentID c) (Depth c)
     (f (Upvotes c)) (Downvotes c) (CreatedAt c).

Definition set_Downvotes (f : Z → Z) (c : t) : t :=
  mk (ID c) (Content c) (AuthorID c) (PostID c) (ParentID c) (Depth c)
     (Upvotes c) (f (Downvotes c)) (CreatedAt c).
End Comment.

Module DirectMessage.
Record t := mk {
  ID : string;
  FromID : string;
  ToID : string;
  Content : string;
  IsRead : bool;
  CreatedAt : Z
}.
End DirectMessage.

Module Vote.
Record t := mk {
  ID : string;
  UserID : string;
  TargetID : string;
  IsUpvote : bool;
  CreatedAt : Z
}.

Definition set_IsUpvote (b : bool) (v : t) : t :=
  mk (ID v) (UserID v) (TargetID v) b (CreatedAt v).
End Vote.

(** ** internal/engine/engine.go: the engine and its errors *)

Record RedditEngine := mkEngine {
  users : gmap string User.t;
  subreddits : gmap string SubReddit.t;
  posts : gmap string Post.t;
  comments : gmap string Comment.t;
  messages : gmap string DirectMessage.t;
  votes : gmap string Vote.t
}.

(** [NewRedditEngine]: every store is empty. *)
Definition NewRedditEngine : RedditEngine := mkEngine ∅ ∅ ∅ ∅ ∅ ∅.

Definition set_users (f : gmap string User.t → gmap string User.t) (e : RedditEngine) :=
  mkEngine (f (users e)) (subreddits e) (posts e) (comments e) (messages e) (votes e).
Definition set_subreddits (f : gmap string SubReddit.t → gmap string SubReddit.t) (e : RedditEngine) :=
  mkEngine (users e) (f (subreddits e)) (posts e) (comments e) (messages e) (votes e).
Definition set_posts (f : gmap string Post.t → gmap string Post.t) (e : RedditEngine) :=
  mkEngine (users e) (subreddits e) (f (posts e)) (comments e) (messages e) (votes e).
Definition set_comments (f : gmap string Comment.t → gmap string Comment.t) (e : RedditEngine) :=
  mkEngine (users e) (subreddits e) (posts e) (f (comments e)) (messages e) (votes e).
Definition set_messages (f : gmap string DirectMessage.t → gmap string DirectMessage.t) (e : RedditEngine) :=
  mkEngine (users e) (subreddits e) (posts e) (comments e) (f (messages e)) (votes e).
Definition set_votes (f : gmap string Vote.t → gmap string Vote.t) (e : RedditEngine) :=
  mkEngine (users e) (subreddits e) (posts e) (comments e) (messages e) (f (votes e)).

(** The errors the engine returns, one constructor per error text of
    engine.go, and [ErrBcrypt] for an error of the hashing library that
    [RegisterAccount] passes on. *)
Inductive error :=
  | ErrUsernameExists
  | ErrBcrypt (msg : string)
  | ErrInvalidPassword
  | ErrCreatorNotFound
  | ErrSubredditNotFound
  | ErrUserNotFound
  | ErrAuthorNotFound
  | ErrNotMember
  | ErrPostNotFound
  | ErrParentNotFound
  | ErrTargetNotFound
  | ErrSenderNotFound
  | ErrRecipientNotFound
  | ErrMessageNotFound
  | ErrUnauthorized.

(** The text of each error. *)
Definition Error (err : error) : string :=
  match err with
  | ErrUsernameExists => "username already exists"
  | ErrBcrypt msg => msg
  | ErrInvalidPassword => "invalid password"
  | ErrCreatorNotFound => "creator not found"
  | ErrSubredditNotFound => "subreddit not found"
  | ErrUserNotFound => "user not found"
  | ErrAuthorNotFound => "author not found"
  | ErrNotMember => "user is not a member of this subreddit"
  | ErrPostNotFound => "post not found"
  | ErrParentNotFound => "parent comment not found"
  | ErrTargetNotFound => "target not found"
  | ErrSenderNotFound => "sender not found"
  | ErrRecipientNotFound => "recipient not found"
  | ErrMessageNotFound => "message not found"
  | ErrUnauthorized => "unauthorized access to message"
  end.

(** The kinds of error of the specification's taxonomy. *)
Inductive error_kind :=
  NotFound | Conflict | PermissionDenied | BadCredential | Internal.

Definition kind (err : error) : error_kind :=
  match err with
  | ErrUsernameExists => Conflict
  | ErrBcrypt _ => Internal
  | ErrInvalidPassword => BadCredential
  | ErrNotMember | ErrUnauthorized => PermissionDenied
  | _ => NotFound
  end.

Inductive result (A : Type) :=
  | Ok (a : A)
  | Err (err : error).
Arguments Ok {A} a.
Arguments Err {A} err.

(** ** The monad of engine operations *)

Definition M (A : Type) : Type := RedditEngine → result A * RedditEngine.

Definition ret {A} (a : A) : M A := λ e, (Ok a, e).

Definition fail {A} (err : error) : M A := λ e, (Err err, e).

Definition bind {A B} (m : M A) (k : A → M B) : M B :=
  λ e, match m e with
       | (Ok a, e') => k a e'
       | (Err err, e') => (Err err, e')
       end.

Definition gets {A} (f : RedditEngine → A) : M A := λ e, (Ok (f e), e).

Definition modify (f : RedditEngine → RedditEngine) : M unit := λ e, (Ok tt, f e).

Notation "x <- m ;; k" := (bind m (λ x, k))
  (at level 100, m at next level, right associativity, only parsing).
Notation "m ;;; k" := (bind m (λ _, k))
  (at level 100, right associativity, only parsing).

(** [sync.Map.Range]: call [f] on the entries one after the other until it
    answers [false]. [f] works on the variables it captures, here a state
    of type [S]. The order of the entries is the map's own. *)
Fixpoint range_entries {K V S} (f : K → V → S → S * bool) (l : list (K * V)) (s : S) : S :=
  match l with
  | [] => s
  | (k, v) :: l' =>
      let '(s', continue) := f k v s in
      if continue then range_entries f l' s' else s'
  end.

Definition Range {V S} (m : gmap string V) (f : string → V → S → S * bool) (s : S) : S :=
  range_entries f (map_to_list m) s.

(** ** The operations of [RedditEngine] *)

(** What [bcrypt.GenerateFromPassword] returns: a hash, or an error of the
    library. *)
Inductive hash_outcome :=
  | Hashed (hash : string)
  | HashError (msg : string).

(** [RegisterAccount]. [id] is what [generateID] returns, [now] what
    [time.Now] returns and [hashed] the outcome of
    [bcrypt.GenerateFromPassword]. *)
Definition RegisterAccount (username password : string)
    (id : string) (now : Z) (hashed : hash_outcome) : M User.t :=
  exists_ <- gets (λ e,
    Range (users e)
      (λ _ user exists_,
         if bool_decide (User.Username user = username) then (true, false)
         else (exists_, true))
      false) ;;
  if (exists_ : bool) then fail ErrUsernameExists else
  match hashed with
  | HashError msg => fail (ErrBcrypt msg)
  | Hashed hashedPassword =>
      let user := User.mk id username hashedPassword 0 false now in
      modify (set_users (insert (User.ID user) user)) ;;;
      ret user
  end.

Definition CreateSubReddit (name description creatorID : string)
    (id : string) (now : Z) : M SubReddit.t :=
  creator <- gets (λ e, users e !! creatorID) ;;
  if creator is None then fail ErrCreatorNotFound else
  let subreddit := SubReddit.mk id name description creatorID 0 0 now ∅ in
  let subreddit := SubReddit.set_Members (insert creatorID true) subreddit in
  modify (set_subreddits (insert (SubReddit.ID subreddit) subreddit)) ;;;
  ret subreddit.

Definition JoinSubReddit (userID subredditID : string) : M unit :=
  subredditI <- gets (λ e, subreddits e !! subredditID) ;;
  if subredditI is None then fail ErrSubredditNotFound else
  user <- gets (λ e, users e !! userID) ;;
  if user is None then fail ErrUserNotFound else
  modify (set_subreddits
            (alter (SubReddit.set_Members (insert userID true)) subredditID)).

Definition LeaveSubReddit (userID subredditID : string) : M unit :=
  subredditI <- gets (λ e, subreddits e !! subredditID) ;;
  if subredditI is None then fail ErrSubredditNotFound else
  modify (set_subreddits
            (alter (SubReddit.set_Members (delete userID)) subredditID)).

Definition CreatePost (title content authorID subredditID : string)
    (id : string) (now : Z) : M Post.t :=
  author <- gets (λ e, users e !! authorID) ;;
  subredditI <- gets (λ e, subreddits e !! subredditID) ;;
  if author is None then fail ErrAuthorNotFound else
  match subredditI with
  | None => fail ErrSubredditNotFound
  | Some subreddit =>
      if SubReddit.Members subreddit !! authorID is None then fail ErrNotMember else
      let post := Post.mk id title content authorID subredditID false "" 0 0 0 now in
      modify (set_posts (insert (Post.ID post) post)) ;;;
      ret post
  end.

Definition CreateComment (content authorID postID : string)
    (parentCommentID : option string) (id : string) (now : Z) : M Comment.t :=
  author <- gets (λ e, users e !! authorID) ;;
  post <- gets (λ e, posts e !! postID) ;;
  if author is None then fail ErrAuthorNotFound else
  if post is None then fail ErrPostNotFound else
  (match parentCommentID with
   | Some parent =>
       parentI <- gets (λ e, comments e !! parent) ;;
       if parentI is None then fail ErrParentNotFound else ret tt
   | None => ret tt
   end) ;;;
  let comment := Comment.mk id content authorID postID parentCommentID 0 0 0 now in
  modify (set_comments (insert (Comment.ID comment) comment)) ;;;
  ret comment.

Definition incr (z : Z) : Z := wrap64 (z + 1).
Definition decr (z : Z) : Z := wrap64 (z - 1).

(** The key of the vote of a user on a target. *)
Definition voteID (userID targetID : string) : string := userID +:+ ":" +:+ targetID.
Arguments voteID : simpl never.

Definition Vote (userID targetID : string) (isUpvote : bool) (now : Z) : M unit :=
  postI <- gets (λ e, posts e !! targetID) ;;
  commentI <- gets (λ e, comments e !! targetID) ;;
  let isPost := bool_decide (is_Some postI) in
  let isComment := bool_decide (is_Some commentI) in
  if negb isPost && negb isComment then fail ErrTargetNotFound else
  let voteID := voteID userID targetID in
  existingVoteI <- gets (λ e, votes e !! voteID) ;;
  match existingVoteI with
  | Some existingVote =>
      if negb (Bool.eqb (Vote.IsUpvote existingVote) isUpvote) then
        (if isPost then
           if isUpvote then
             modify (set_posts (alter (Post.set_Upvotes incr) targetID)) ;;;
             modify (set_posts (alter (Post.set_Downvotes decr) targetID))
           else
             modify (set_posts (alter (Post.set_Downvotes incr) targetID)) ;;;
             modify (set_posts (alter (Post.set_Upvotes decr) targetID))
         else
           if isUpvote then
             modify (set_comments (alter (Comment.set_Upvotes incr) targetID)) ;;;
             modify (set_comments (alter (Comment.set_Downvotes decr) targetID))
           else
             modify (set_comments (alter (Comment.set_Downvotes incr) targetID)) ;;;
             modify (set_comments (alter (Comment.set_Upvotes decr) targetID))) ;;;
        modify (set_votes (alter (Vote.set_IsUpvote isUpvote) voteID))
      else ret tt
  | None =>
      let vote := Vote.mk "" userID targetID isUpvote now in
      (if isPost then
         if isUpvote then modify (set_posts (alter (Post.set_Upvotes incr) targetID))
         else modify (set_posts (alter (Post.set_Downvotes incr) targetID))
       else
         if isUpvote then modify (set_comments (alter (Comment.set_Upvotes incr) targetID))
         else modify (set_comments (alter (Comment.set_Downvotes incr) targetID))) ;;;
      modify (set_votes (insert voteID vote))
  end.

(** [GetFeed]: the first [Range] fills [userSubscriptions], the second one
    appends to [feed]; an absent key of a Go map reads as [false]. *)
Definition userSubscriptions (e : RedditEngine) (userID : string) : gmap string bool :=
  Range (subreddits e)
    (λ _ subreddit subs,
       if SubReddit.Members subreddit !! userID is Some _
       then (<[SubReddit.ID subreddit := true]> subs, true)
       else (subs, true))
    ∅.

Definition GetFeed (userID : string) : M (list Post.t) :=
  subs <- gets (λ e, userSubscriptions e userID) ;;
  feed <- gets (λ e,
    Range (posts e)
      (λ _ post feed,
         if default false (subs !! Post.SubRedditID post)
         then (feed ++ [post], true)
         else (feed, true))
      []) ;;
  ret feed.

Definition SendDirectMessage (fromID toID content : string)
    (id : string) (now : Z) : M DirectMessage.t :=
  from <- gets (λ e, users e !! fromID) ;;
  to <- gets (λ e, users e !! toID) ;;
  if from is None then fail ErrSenderNotFound else
  if to is None then fail ErrRecipientNotFound else
  let message := DirectMessage.mk id fromID toID content false now in
  modify (set_messages (insert (DirectMessage.ID message) message)) ;;;
  ret message.

Definition GetMessage (userID messageID : string) : M DirectMessage.t :=
  msgI <- gets (λ e, messages e !! messageID) ;;
  match msgI with
  | None => fail ErrMessageNotFound
  | Some msg =>
      if negb (bool_decide (DirectMessage.FromID msg = userID))
         && negb (bool_decide (DirectMessage.ToID msg = userID))
      then fail ErrUnauthorized
      else ret msg
  end.

(** *** The operations that only read *)

Definition Start (port : string) : M unit := ret tt.

(** [AuthenticateUser]. [matches] is whether
    [bcrypt.CompareHashAndPassword] accepts the password. *)
Definition AuthenticateUser (username password : string) (matches : bool) : M string :=
  user <- gets (λ e,
    Range (users e)
      (λ _ u user,
         if bool_decide (User.Username u = username) then (Some u, false)
         else (user, true))
      None) ;;
  match user with
  | None => fail ErrUserNotFound
  | Some user => if matches then ret (User.ID user) else fail ErrInvalidPassword
  end.

Definition GetSubReddit (subredditID : string) : M SubReddit.t :=
  subI <- gets (λ e, subreddits e !! subredditID) ;;
  match subI with
  | None => fail ErrSubredditNotFound
  | Some sub => ret sub
  end.

Definition ListSubreddits : M (list SubReddit.t) :=
  gets (λ e, Range (subreddits e) (λ _ value l, (l ++ [value], true)) []).

Definition GetPost (postID : string) : M Post.t :=
  postI <- gets (λ e, posts e !! postID) ;;
  match postI with
  | None => fail ErrPostNotFound
  | Some post => ret post
  end.

Definition ListPosts (subredditID : string) : M (list Post.t) :=
  gets (λ e,
    Range (posts e)
      (λ _ post l,
         if bool_decide (Post.SubRedditID post = subredditID)
         then (l ++ [post], true) else (l, true))
      []).

Definition GetComments (postID : string) : M (list Comment.t) :=
  gets (λ e,
    Range (comments e)
      (λ _ comment l,
         if bool_decide (Comment.PostID comment = postID)
         then (l ++ [comment], true) else (l, true))
      []).

Definition GetUserPublicKey (userID : string) : M string :=
  user <- gets (λ e, users e !! userID) ;;
  if user is None then fail ErrUserNotFound else ret "dummy-public-key".

Definition GetUserMessages (userID : string) : M (list DirectMessage.t) :=
  gets (λ e,
    Range (messages e)
      (λ _ msg l,
         if bool_decide (DirectMessage.ToID msg = userID)
            || bool_decide (DirectMessage.FromID msg = userID)
         then (l ++ [msg], true) else (l, true))
      []).

(** ** Runs of the engine *)

(** A call of a method of [RedditEngine], with what the environment
    answers during the call. *)
Inductive op :=
  | OpStart (port : string)
  | OpRegisterAccount (username password id : string) (now : Z) (hashed : hash_outcome)
  | OpAuthenticateUser (username password : string) (matches : bool)
  | OpCreateSubReddit (name description creatorID id : string) (now : Z)
  | OpGetSubReddit (subredditID : string)
  | OpListSubreddits
  | OpJoinSubReddit (userID subredditID : string)
  | OpLeaveSubReddit (userID subredditID : string)
  | OpCreatePost (title content authorID subredditID id : string) (now : Z)
  | OpGetPost (postID : string)
  | OpListPosts (subredditID : string)
  | OpCreateComment (content authorID postID : string)
      (parentCommentID : option string) (id : string) (now : Z)
  | OpGetComments (postID : string)
  | OpVote (userID targetID : string) (isUpvote : bool) (now : Z)
  | OpGetFeed (userID : string)
  | OpSendDirectMessage (fromID toID content id : string) (now : Z)
  | OpGetMessage (userID messageID : string)
  | OpGetUserPublicKey (userID : string)
  | OpGetUserMessages (userID : string).

(** The error a computation returns, if any, and the engine it leaves. *)
Definition outcome {A} (m : M A) (e : RedditEngine) : option error * RedditEngine :=
  match m e with
  | (Ok _, e') => (None, e')
  | (Err err, e') => (Some err, e')
  end.

Definition run (o : op) : RedditEngine → option error * RedditEngine :=
  match o with
  | OpStart port => outcome (Start port)
  | OpRegisterAccount username password id now hashed =>
      outcome (RegisterAccount username password id now hashed)
  | OpAuthenticateUser username password matches =>
      outcome (AuthenticateUser username password matches)
  | OpCreateSubReddit name description creatorID id now =>
      outcome (CreateSubReddit name description creatorID id now)
  | OpGetSubReddit subredditID => outcome (GetSubReddit subredditID)
  | OpListSubreddits => outcome ListSubreddits
  | OpJoinSubReddit userID subredditID => outcome (JoinSubReddit userID subredditID)
  | OpLeaveSubReddit userID subredditID => outcome (LeaveSubReddit userID subredditID)
  | OpCreatePost title content authorID subredditID id now =>
      outcome (CreatePost title content authorID subredditID id now)
  | OpGetPost postID => outcome (GetPost postID)
  | OpListPosts subredditID => outcome (ListPosts subredditID)
  | OpCreateComment content authorID postID parentCommentID id now =>
      outcome (CreateComment content authorID postID parentCommentID id now)
  | OpGetComments postID => outcome (GetComments postID)
  | OpVote userID targetID isUpvote now => outcome (Vote userID targetID isUpvote now)
  | OpGetFeed userID => outcome (GetFeed userID)
  | OpSendDirectMessage fromID toID content id now =>
      outcome (SendDirectMessage fromID toID content id now)
  | OpGetMessage userID messageID => outcome (GetMessage userID messageID)
  | OpGetUserPublicKey userID => outcome (GetUserPublicKey userID)
  | OpGetUserMessages userID => outcome (GetUserMessages userID)
  end.

(** The engines that calls of the methods build from [NewRedditEngine]. *)
Inductive reachable : RedditEngine → Prop :=
  | reachable_new : reachable NewRedditEngine
  | reachable_run e o : reachable e → reachable (run o e).2.

(** The state an operation leaves and the value it returns. *)
Definition exec {A} (m : M A) (e : RedditEngine) : RedditEngine := (m e).2.
Definition eval {A} (m : M A) (e : RedditEngine) : result A := (m e).1.

(** ** Notions of the statements *)

(** The counters [(Upvotes, Downvotes)] of a target, resolved as [Vote]
    does: against the posts first, then against the comments. *)
Definition counters (e : RedditEngine) (targetID : string) : option (Z * Z) :=
  match posts e !! targetID with
  | Some post => Some (Post.Upvotes post, Post.Downvotes post)
  | None =>
      match comments e !! targetID with
      | Some comment => Some (Comment.Upvotes comment, Comment.Downvotes comment)
      | None => None
      end
  end.

(** Whether a user is in the membership map of a subreddit, as
    [Members.Load] tells. *)
Definition isMember (userID : string) (s : SubReddit.t) : Prop :=
  is_Some (SubReddit.Members s !! userID).

(** No two stored users share a username. *)
Definition unique_usernames (us : gmap string User.t) : Prop :=
  ∀ k1 k2 u1 u2,
    us !! k1 = Some u1 → us !! k2 = Some u2 →
    User.Username u1 = User.Username u2 → k1 = k2.

(** Some stored user has this username. *)
Definition username_taken (us : gmap string User.t) (username : string) : Prop :=
  ∃ k u, us !! k = Some u ∧ User.Username u = username.

(** The update of the counters of a post, or of a comment, by a first
    vote and by a flipped vote. *)
Definition first_vote_post (isUpvote : bool) : Post.t → Post.t :=
  if isUpvote then Post.set_Upvotes incr else Post.set_Downvotes incr.

Definition first_vote_comment (isUpvote : bool) : Comment.t → Comment.t :=
  if isUpvote then Comment.set_Upvotes incr else Comment.set_Downvotes incr.

Definition flip_vote_post (isUpvote : bool) (p : Post.t) : Post.t :=
  if isUpvote then Post.set_Downvotes decr (Post.set_Upvotes incr p)
  else Post.set_Upvotes decr (Post.set_Downvotes incr p).

Definition flip_vote_comment (isUpvote : bool) (c : Comment.t) : Comment.t :=
  if isUpvote then Comment.set_Downvotes decr (Comment.set_Upvotes incr c)
  else Comment.set_Upvotes decr (Comment.set_Downvotes incr c).

(** Identifiers are the keys: each subreddit and each post is stored under
    its own [ID]. *)
Definition keyed (e : RedditEngine) : Prop :=
  (∀ k s, subreddits e !! k = Some s → SubReddit.ID s = k)
  ∧ (∀ k p, posts e !! k = Some p → Post.ID p = k).

(** ** Calls of [RegisterAccount] that overlap

    [RegisterAccount] holds no lock from its scan of the users (lines
    42-50) to its [Store] (line 70), and the handlers of the server call it
    from several goroutines. A call in progress is at one of four places:
    before the scan, before the hashing (the scan found nobody), before the
    [Store] (the user is built), or it has returned. The scan is taken as
    one step. A call carries what the environment answers during it. *)
Inductive registration :=
  | AtScan (username password id : string) (now : Z) (hashed : hash_outcome)
  | AtHash (username password id : string) (now : Z) (hashed : hash_outcome)
  | AtStore (user : User.t)
  | Returned (r : result User.t).

(** The next step of a call in progress. *)
Definition advance (t : registration) (e : RedditEngine) : registration * RedditEngine :=
  match t with
  | AtScan username password id now hashed =>
      let exists_ :=
        Range (users e)
          (λ _ user exists_,
             if bool_decide (User.Username user = username) then (true, false)
             else (exists_, true))
          false in
      if exists_ then (Returned (Err ErrUsernameExists), e)
      else (AtHash username password id now hashed, e)
  | AtHash username password id now hashed =>
      match hashed with
      | HashError msg => (Returned (Err (ErrBcrypt msg)), e)
      | Hashed hashedPassword =>
          (AtStore (User.mk id username hashedPassword 0 false now), e)
      end
  | AtStore user => (Returned (Ok user), set_users (insert (User.ID user) user) e)
  | Returned r => (Returned r, e)
  end.









(** ** A sample run

    Two users, a subreddit that the first one creates, a post in it, a
    top-level comment on the post and a message from the first user to the
    second. Identifiers have the shape [generateID] gives them: 32
    hexadecimal digits. *)

Definition uid_alice : string := "5f1c2a9e0b3d4c6f8a7e1d2c3b4a5968".
Definition uid_bob : string := "0a1b2c3d4e5f60718293a4b5c6d7e8f9".
Definition uid_carol : string := "c4d5e6f708192a3b4c5d6e7f8091a2b3".
Definition sid_golang : string := "9e8d7c6b5a4f3e2d1c0b9a8f7e6d5c4b".
Definition sid_rust : string := "1234567890abcdef1234567890abcdef".
Definition pid_hello : string := "77aa88bb99cc00dd11ee22ff33445566".
Definition cid_first : string := "deadbeefcafebabe0123456789abcdef".
Definition cid_reply : string := "0f1e2d3c4b5a69788796a5b4c3d2e1f0".
Definition mid_hi : string := "abcdefabcdefabcdefabcdefabcdefab".

Definition sid_haskell : string := "fedcba0987654321fedcba0987654321".
Definition pid_borrow : string := "2468ace013579bdf2468ace013579bdf".
Definition pid_monads : string := "13579bdf2468ace013579bdf2468ace0".
Definition pid_generics : string := "89abcdef0123456789abcdef01234567".
Definition uid_dave : string := "00112233445566778899aabbccddeeff".

Definition run_all (os : list op) (e : RedditEngine) : RedditEngine :=
  fold_left (λ e o, (run o e).2) os e.

Definition sample_calls : list op :=
  [ OpRegisterAccount "alice" "correct horse" uid_alice 1 (Hashed "$2a$10$alice");
    OpRegisterAccount "bob" "battery staple" uid_bob 2 (Hashed "$2a$10$bob");
    OpRegisterAccount "carol" "tr0ub4dor" uid_carol 3 (Hashed "$2a$10$carol");
    OpCreateSubReddit "golang" "The Go language" uid_alice sid_golang 4;
    OpCreatePost "hello" "hello, gophers" uid_alice sid_golang pid_hello 5;
    OpCreateComment "first" uid_alice pid_hello None cid_first 6;
    OpSendDirectMessage uid_alice uid_bob "hi" mid_hi 7 ].

Definition sample : RedditEngine := run_all sample_calls NewRedditEngine.

(** A second run for the feed: bob joins the subreddits golang and rust
    and not haskell; a post is then created in each of the three. *)

Definition feed_sample_calls : list op :=
  [ OpCreateSubReddit "rust" "The Rust language" uid_alice sid_rust 8;
    OpCreateSubReddit "haskell" "The Haskell language" uid_carol sid_haskell 9;
    OpJoinSubReddit uid_bob sid_golang;
    OpJoinSubReddit uid_bob sid_rust;
    OpCreatePost "monads" "a monad is a monoid" uid_carol sid_haskell pid_monads 10;
    OpCreatePost "borrow" "fighting the borrow checker" uid_alice sid_rust pid_borrow 11 ].

Definition feed_sample : RedditEngine := run_all feed_sample_calls sample.

(** ** Notions of the further properties *)

(** The users of a list upvote one target, one after the other. *)
Definition upvote_all (userIDs : list string) (targetID : string) (now : Z)
    (e : RedditEngine) : RedditEngine :=
  foldl (λ e userID, exec (Vote userID targetID true now) e) e userIDs.

(** The calls that only read. *)
Definition read_only (o : op) : bool :=
  match o with
  | OpStart _ | OpAuthenticateUser _ _ _ | OpGetSubReddit _ | OpListSubreddits
  | OpGetPost _ | OpListPosts _ | OpGetComments _ | OpGetFeed _
  | OpGetMessage _ _ | OpGetUserPublicKey _ | OpGetUserMessages _ => true
  | _ => false
  end.

(** No reference dangles: every entity is stored under its own identifier,
    every identifier that an entity holds names a stored entity of the
    right store, and every member of a subreddit is a stored user. A vote
    is stored under the key of its user and target, its own [ID] is empty,
    and its target is a stored post or comment. *)
Definition consistent (e : RedditEngine) : Prop :=
  (∀ k u, users e !! k = Some u → User.ID u = k)
  ∧ (∀ k s, subreddits e !! k = Some s →
       SubReddit.ID s = k
       ∧ is_Some (users e !! SubReddit.CreatorID s)
       ∧ ∀ member b, SubReddit.Members s !! member = Some b →
           b = true ∧ is_Some (users e !! member))
  ∧ (∀ k p, posts e !! k = Some p →
       Post.ID p = k
       ∧ is_Some (users e !! Post.AuthorID p)
       ∧ is_Some (subreddits e !! Post.SubRedditID p))
  ∧ (∀ k c, comments e !! k = Some c →
       Comment.ID c = k
       ∧ is_Some (users e !! Comment.AuthorID c)
       ∧ is_Some (posts e !! Comment.PostID c)
       ∧ ∀ parent, Comment.ParentID c = Some parent →
           is_Some (comments e !! parent))
  ∧ (∀ k m, messages e !! k = Some m →
       DirectMessage.ID m = k
       ∧ is_Some (users e !! DirectMessage.FromID m)
       ∧ is_Some (users e !! DirectMessage.ToID m))
  ∧ (∀ k v, votes e !! k = Some v →
       k = voteID (Vote.UserID v) (Vote.TargetID v)
       ∧ Vote.ID v = ""
       ∧ (is_Some (posts e !! Vote.TargetID v)
          ∨ is_Some (comments e !! Vote.TargetID v))).

(** ** pkg/config/ports.go *)

Module Config.
Definition DefaultEnginePort : Z := 50051.
Definition DefaultMetricsPort : Z := 50052.
Definition DefaultClientPort : Z := 50053.

Record ServiceConfig := mk {
  EngineHost : string;
  EnginePort : Z;
  MetricsPort : Z;
  ClientPort : Z;
  MaxConnections : Z;
  ConnectionTimeout : Z
}.

Definition NewDefaultConfig : ServiceConfig :=
  mk "localhost" DefaultEnginePort DefaultMetricsPort DefaultClientPort 1000 30.

(** [fmt.Sprintf("%s:%d", host, port)]: the host, a colon and the port in
    decimal digits, with a minus sign when it is negative. *)
Definition address (host : string) (port : Z) : string :=
  host +:+ ":" +:+ pretty port.

Definition GetEngineAddress (c : ServiceConfig) : string :=
  address (EngineHost c) (EnginePort c).

Definition GetMetricsAddress (c : ServiceConfig) : string :=
  address (EngineHost c) (MetricsPort c).

Definition GetClientMetricsAddress (c : ServiceConfig) : string :=
  address (EngineHost c) (ClientPort c).

(** [Validate]: [None] is the nil error, [Some] holds the text of the
    error. *)
Definition Validate (c : ServiceConfig) : option string :=
  if bool_decide (EnginePort c = MetricsPort c)
     || bool_decide (EnginePort c = ClientPort c)
  then Some "ports must be different"
  else if bool_decide (MaxConnections c < 1)
  then Some "max connections must be positive"
  else None.
End Config.

(** ** pkg/metrics/metrics.go

    [time.Duration] is an [int64], a [time.Time] an instant with [None] for
    the zero value, a [float64] the 64 bits that encode it. The mutex of
    the collector plays no part in calls taken one after the other. A
    division by zero panics: the functions that divide return [None]
    then. *)

Module EndpointStats.
Record t := mk {
  Method : string;
  CallCount : Z;
  ErrorCount : Z;
  TotalLatency : Z;
  AverageLatency : Z;
  LastCall : option Z
}.
End EndpointStats.

Module SubredditStats.
Record t := mk {
  Name : string;
  MemberCount : Z;
  PostCount : Z;
  CommentCount : Z;
  VoteCount : Z;
  ActiveUsers : Z;
  PopularPosts : list string
}.
End SubredditStats.

Module Stats.
Record t := mk {
  StartTime : option Z;
  TotalUsers : Z;
  ActiveUsers : Z;
  TotalPosts : Z;
  TotalComments : Z;
  TotalVotes : Z;
  TotalRequests : Z;
  ErrorCount : Z;
  RequestRate : Z;
  AverageLatency : Z;
  EndpointStats : gmap string EndpointStats.t;
  SubredditStats : gmap string SubredditStats.t
}.

Definition set_ErrorCount (f : Z → Z) (s : t) : t :=
  mk (StartTime s) (TotalUsers s) (ActiveUsers s) (TotalPosts s)
     (TotalComments s) (TotalVotes s) (TotalRequests s) (f (ErrorCount s))
     (RequestRate s) (AverageLatency s) (EndpointStats s) (SubredditStats s).

Definition set_AverageLatency (avg : Z) (s : t) : t :=
  mk (StartTime s) (TotalUsers s) (ActiveUsers s) (TotalPosts s)
     (TotalComments s) (TotalVotes s) (TotalRequests s) (ErrorCount s)
     (RequestRate s) avg (EndpointStats s) (SubredditStats s).

Definition set_EndpointStats
    (f : gmap string EndpointStats.t → gmap string EndpointStats.t) (s : t) : t :=
  mk (StartTime s) (TotalUsers s) (ActiveUsers s) (TotalPosts s)
     (TotalComments s) (TotalVotes s) (TotalRequests s) (ErrorCount s)
     (RequestRate s) (AverageLatency s) (f (EndpointStats s)) (SubredditStats s).
End Stats.

Module Collector.
Record t := mk {
  stats : Stats.t;
  latencies : list Z;
  lastUpdate : option Z;
  requestCounts : gmap string Z
}.

(** [NewCollector]; [now] is what [time.Now] returns. *)
Definition NewCollector (now : Z) : t :=
  mk (Stats.mk (Some now) 0 0 0 0 0 0 0 0 0 ∅ ∅) [] None ∅.

(** The quotient of two [int64], rounded towards zero; [None] is the panic
    of a division by zero. *)
Definition div64 (a b : Z) : option Z :=
  if bool_decide (b = 0) then None else Some (wrap64 (Z.quot a b)).

Definition updateAverageLatency (c : t) : option t :=
  if bool_decide (length (latencies c) = 0%nat) then Some c else
  let total := foldl (λ total latency, wrap64 (total + latency)) 0 (latencies c) in
  avg ← div64 total (Z.of_nat (length (latencies c)));
  Some (mk (Stats.set_AverageLatency avg (stats c)) (latencies c)
          (lastUpdate c) (requestCounts c)).

(** The entry of an endpoint, made on the first use of the endpoint. *)
Definition endpoint_stats (c : t) (endpoint : string) : EndpointStats.t :=
  match Stats.EndpointStats (stats c) !! endpoint with
  | Some stats => stats
  | None => EndpointStats.mk endpoint 0 0 0 0 None
  end.

(** [RecordLatency]; [now] is what [time.Now] returns. *)
Definition RecordLatency (endpoint : string) (duration : Z) (now : Z)
    (c : t) : option t :=
  let stats := endpoint_stats c endpoint in
  let callCount := wrap64 (EndpointStats.CallCount stats + 1) in
  let totalLatency := wrap64 (EndpointStats.TotalLatency stats + duration) in
  averageLatency ← div64 totalLatency callCount;
  let stats :=
    EndpointStats.mk (EndpointStats.Method stats) callCount
      (EndpointStats.ErrorCount stats) totalLatency averageLatency (Some now) in
  updateAverageLatency
    (mk (Stats.set_EndpointStats (insert endpoint stats) (Collector.stats c))
        (latencies c ++ [duration]) (lastUpdate c) (requestCounts c)).

Definition RecordError (endpoint : string) (c : t) : t :=
  let stats := endpoint_stats c endpoint in
  let stats :=
    EndpointStats.mk (EndpointStats.Method stats) (EndpointStats.CallCount stats)
      (wrap64 (EndpointStats.ErrorCount stats + 1))
      (EndpointStats.TotalLatency stats) (EndpointStats.AverageLatency stats)
      (EndpointStats.LastCall stats) in
  mk (Stats.set_ErrorCount (λ n, wrap64 (n + 1))
        (Stats.set_EndpointStats (insert endpoint stats) (Collector.stats c)))
     (latencies c) (lastUpdate c) (requestCounts c).

(** [GetStats] copies every field of the statistics and every entry of the
    two maps: the copy is equal to the statistics. *)
Definition GetStats (c : t) : Stats.t :=
  let s := stats c in
  Stats.mk (Stats.StartTime s) (Stats.TotalUsers s) (Stats.ActiveUsers s)
    (Stats.TotalPosts s) (Stats.TotalComments s) (Stats.TotalVotes s)
    (Stats.TotalRequests s) (Stats.ErrorCount s) (Stats.RequestRate s)
    (Stats.AverageLatency s)
    ((λ v, EndpointStats.mk (EndpointStats.Method v) (EndpointStats.CallCount v)
             (EndpointStats.ErrorCount v) (EndpointStats.TotalLatency v)
             (EndpointStats.AverageLatency v) (EndpointStats.LastCall v))
       <$> Stats.EndpointStats s)
    ((λ v, SubredditStats.mk (SubredditStats.Name v) (SubredditStats.MemberCount v)
             (SubredditStats.PostCount v) (SubredditStats.CommentCount v)
             (SubredditStats.VoteCount v) (SubredditStats.ActiveUsers v)
             ([] ++ SubredditStats.PopularPosts v))
       <$> Stats.SubredditStats s).
End Collector.

(** What is recorded: a latency of an endpoint, or an error of one. *)
Inductive metric :=
  | Latency (endpoint : string) (duration now : Z)
  | Failure (endpoint : string).

Definition record (m : metric) (c : Collector.t) : option Collector.t :=
  match m with
  | Latency endpoint duration now => Collector.RecordLatency endpoint duration now c
  | Failure endpoint => Some (Collector.RecordError endpoint c)
  end.

Definition record_all (ms : list metric) (c : Collector.t) : option Collector.t :=
  foldl (λ oc m, oc ≫= record m) (Some c) ms.

(** The latencies recorded for an endpoint, each with its time, the
    latencies of all endpoints, the errors of an endpoint and of all, and
    the time of the last latency of an endpoint. *)
Definition calls_of (endpoint : string) (ms : list metric) : list (Z * Z) :=
  omap (λ m, match m with
             | Latency endpoint' duration now =>
                 if decide (endpoint' = endpoint) then Some (duration, now)
                 else None
             | Failure _ => None
             end) ms.

Definition latencies_of (endpoint : string) (ms : list metric) : list Z :=
  (calls_of endpoint ms).*1.

Definition all_latencies (ms : list metric) : list Z :=
  omap (λ m, match m with
             | Latency _ duration _ => Some duration
             | Failure _ => None
             end) ms.

Definition failures_of (endpoint : string) (ms : list metric) : list unit :=
  omap (λ m, match m with
             | Failure endpoint' =>
                 if decide (endpoint' = endpoint) then Some tt else None
             | Latency _ _ _ => None
             end) ms.

Definition all_failures (ms : list metric) : list unit :=
  omap (λ m, match m with
             | Failure _ => Some tt
             | Latency _ _ _ => None
             end) ms.

Definition last_call (endpoint : string) (ms : list metric) : option Z :=
  last (calls_of endpoint ms).*2.

Definition sumZ (l : list Z) : Z := foldr Z.add 0 l.

Definition mean (l : list Z) : Z :=
  if bool_decide (l = []) then 0 else Z.quot (sumZ l) (Z.of_nat (length l)).

(** The entry that the collector should hold for an endpoint after these
    records: none when the endpoint was never named, else the number of its
    latencies, the number of its errors, the sum and the mean of its
    latencies and the time of the last one. *)
Definition expected_entry (endpoint : string) (ms : list metric) : EndpointStats.t :=
  EndpointStats.mk endpoint
    (Z.of_nat (length (latencies_of endpoint ms)))
    (Z.of_nat (length (failures_of endpoint ms)))
    (sumZ (latencies_of endpoint ms))
    (mean (latencies_of endpoint ms))
    (last_call endpoint ms).

Definition expected (endpoint : string) (ms : list metric) : option EndpointStats.t :=
  if bool_decide (latencies_of endpoint ms = [] ∧ failures_of endpoint ms = [])
  then None else Some (expected_entry endpoint ms).

(** The records stay within [int64]: no latency is negative, their sum
    and the number of records are below the largest [int64]. *)
Definition within_int64 (ms : list metric) : Prop :=
  Forall (λ d, 0 <= d) (all_latencies ms)
  ∧ sumZ (all_latencies ms) < 2 ^ 63
  ∧ Z.of_nat (length ms) < 2 ^ 63.

(** What the collector holds after these records. *)
Definition holds (ms : list metric) (c : Collector.t) : Prop :=
  Collector.latencies c = all_latencies ms
  ∧ (∀ endpoint,
       Stats.EndpointStats (Collector.stats c) !! endpoint = expected endpoint ms)
  ∧ Stats.ErrorCount (Collector.stats c) = Z.of_nat (length (all_failures ms))
  ∧ Stats.AverageLatency (Collector.stats c) = mean (all_latencies ms).

(** ** internal/middleware/auth.go *)

(** [strings.Split(s, sep)] for a separator of one character: the pieces
    of [s] between the separators, one piece more than there are
    separators. *)
Fixpoint Split (s : string) (sep : Ascii.ascii) : list string :=
  match s with
  | EmptyString => [""]
  | String a s' =>
      if decide (a = sep) then "" :: Split s' sep
      else match Split s' sep with
           | piece :: pieces => String a piece :: pieces
           | [] => [String a ""]
           end
  end.

Definition StatusUnauthorized : Z := 401.

(** What [AuthMiddleware] does with a request: it answers with an error of
    HTTP, or it hands the request on with a user identifier in its
    context. *)
Inductive authorization :=
  | HttpError (message : string) (code : Z)
  | Next (userID : string).

(** [AuthMiddleware]; [authHeader] is what
    [r.Header.Get("Authorization")] returns, the empty string when the
    header is absent. *)
Definition AuthMiddleware (authHeader : string) : authorization :=
  if decide (authHeader = "") then
    HttpError "Authorization header required" StatusUnauthorized
  else
    let parts := Split authHeader " "%char in
    if negb (bool_decide (length parts = 2%nat))
       || negb (bool_decide (parts !! 0%nat = Some "Bearer"))
    then HttpError "Invalid authorization format" StatusUnauthorized
    else
      match parts !! 1%nat with
      | Some token => Next token
      | None => HttpError "Invalid authorization format" StatusUnauthorized
      end.

(** Whether a character occurs in a string. *)
Fixpoint occurs (c : Ascii.ascii) (s : string) : bool :=
  match s with
  | EmptyString => false
  | String a s' => bool_decide (a = c) || occurs c s'
  end.

(** * Properties *)

Ltac unfold_M := unfold exec, eval, outcome, bind, gets, modify, ret, fail in *.

(** ** Machine integers *)

Lemma wrap64_id z : int64_range z → wrap64 z = z.
Proof.
  unfold int64_range, wrap64. intros Hz.
  rewrite Z.mod_small; lia.
Qed.

Lemma decr_incr z : int64_range z → decr (incr z) = z.
Proof.
  unfold int64_range, decr, incr, wrap64. intros Hz.
  replace ((z + 1 + 2 ^ 63) mod 2 ^ 64 - 2 ^ 63 - 1 + 2 ^ 63)
    with ((z + 1 + 2 ^ 63) mod 2 ^ 64 - 1) by lia.
  destruct (Z.eq_dec z (2 ^ 63 - 1)) as [->|Hne].
  - reflexivity.
  - rewrite (Z.mod_small (z + 1 + 2 ^ 63)) by lia.
    rewrite Z.mod_small; lia.
Qed.

Lemma incr_small z : int64_range z → z < 2 ^ 63 - 1 → incr z = z + 1.
Proof.
  unfold int64_range, incr. intros Hz Hlt. apply wrap64_id.
  unfold int64_range. lia.
Qed.

(** ** [Range] *)

Section range.
Context {K V : Type}.

(** A scan that looks for an entry with a property and stops at the
    first one finds one exactly when there is one. *)
Lemma range_entries_find (P : V → bool) (l : list (K * V)) (found : bool) :
  range_entries (λ _ v acc, if P v then (true, false) else (acc, true)) l found = true
  ↔ found = true ∨ ∃ kv, kv ∈ l ∧ P kv.2 = true.
Proof.
  revert found. induction l as [|[k v] l IH]; intros found; simpl.
  - split; [auto|]. intros [?|(kv & Hin & _)]; [done|]. by apply elem_of_nil in Hin.
  - destruct (P v) eqn:HP.
    + split; [|done]. intros _. right. exists (k, v). split; [left|done].
    + rewrite IH. split.
      * intros [?|(kv & Hin & Hkv)]; [by left|].
        right. exists kv. split; [by right|done].
      * intros [?|(kv & Hin & Hkv)]; [by left|].
        apply elem_of_cons in Hin as [->|Hin]; [simpl in Hkv; congruence|].
        right. by exists kv.
Qed.

(** A scan that appends the entries with a property collects them in the
    order of the scan. *)
Lemma range_entries_collect (P : V → bool) (l : list (K * V)) (acc : list V) :
  range_entries (λ _ v acc, if P v then (acc ++ [v], true) else (acc, true)) l acc
  = acc ++ (filter (λ kv, P kv.2 = true) l).*2.
Proof.
  revert acc. induction l as [|[k v] l IH]; intros acc; simpl.
  - by rewrite app_nil_r.
  - rewrite filter_cons. simpl. destruct (P v) eqn:HP.
    + rewrite IH. rewrite decide_True by done. simpl. by rewrite <- app_assoc.
    + rewrite IH. rewrite decide_False by (by intros ?). done.
Qed.
End range.

(** ** Runs *)

Lemma reachable_run_all os e : reachable e → reachable (run_all os e).
Proof.
  revert e. induction os as [|o os IH]; intros e He; simpl; [done|].
  apply IH. by constructor.
Qed.

(** ** [RegisterAccount] *)

Lemma username_scan (us : gmap string User.t) (username : string) :
  Range us
    (λ _ user exists_,
       if bool_decide (User.Username user = username) then (true, false)
       else (exists_, true))
    false = true
  ↔ username_taken us username.
Proof.
  unfold Range, username_taken.
  rewrite (range_entries_find (λ u, bool_decide (User.Username u = username))).
  split.
  - intros [?|([k u] & Hin & Hu)]; [done|].
    exists k, u. split; [by apply elem_of_map_to_list|].
    by apply bool_decide_eq_true in Hu.
  - intros (k & u & Hk & Hu). right. exists (k, u).
    split; [by apply elem_of_map_to_list|]. by apply bool_decide_eq_true.
Qed.

Lemma username_scan_false (us : gmap string User.t) (username : string) :
  Range us
    (λ _ user exists_,
       if bool_decide (User.Username user = username) then (true, false)
       else (exists_, true))
    false = false
  ↔ ¬ username_taken us username.
Proof.
  rewrite <- username_scan. destruct (Range _ _ _); split; congruence.
Qed.

Lemma RegisterAccount_taken e username password id now hashed :
  username_taken (users e) username →
  RegisterAccount username password id now hashed e = (Err ErrUsernameExists, e).
Proof.
  intros Ht. apply username_scan in Ht.
  unfold RegisterAccount. unfold_M. by rewrite Ht.
Qed.

Lemma RegisterAccount_hashed e username password id now hash :
  ¬ username_taken (users e) username →
  let user := User.mk id username hash 0 false now in
  RegisterAccount username password id now (Hashed hash) e
  = (Ok user, set_users (insert id user) e).
Proof.
  intros Ht. apply username_scan_false in Ht.
  unfold RegisterAccount. unfold_M. by rewrite Ht.
Qed.

Lemma RegisterAccount_hash_error e username password id now msg :
  ¬ username_taken (users e) username →
  RegisterAccount username password id now (HashError msg) e
  = (Err (ErrBcrypt msg), e).
Proof.
  intros Ht. apply username_scan_false in Ht.
  unfold RegisterAccount. unfold_M. by rewrite Ht.
Qed.

Lemma username_taken_dec (us : gmap string User.t) (username : string) :
  username_taken us username ∨ ¬ username_taken us username.
Proof.
  destruct (Range us
    (λ _ user exists_,
       if bool_decide (User.Username user = username) then (true, false)
       else (exists_, true))
    false) eqn:Hscan.
  - left. by apply username_scan.
  - right. by apply username_scan_false.
Qed.

(** ** What a call does to the store of users *)

Ltac run_cases :=
  simpl; unfold_M; simpl; repeat case_match; simplify_eq; simpl; try done.

Lemma run_users_register username password id now hashed e :
  let o := OpRegisterAccount username password id now hashed in
  users (run o e).2 = users e
  ∨ ∃ username password id now hash,
      o = OpRegisterAccount username password id now (Hashed hash)
      ∧ ¬ username_taken (users e) username
      ∧ users (run o e).2 = <[id := User.mk id username hash 0 false now]> (users e).
Proof.
  destruct (username_taken_dec (users e) username) as [Ht|Ht].
  - left. simpl. unfold outcome. by rewrite RegisterAccount_taken.
  - destruct hashed as [hash|msg].
    + right. exists username, password, id, now, hash.
      split; [done|]. split; [done|].
      simpl. unfold outcome. by rewrite RegisterAccount_hashed.
    + left. simpl. unfold outcome. by rewrite RegisterAccount_hash_error.
Qed.

(** A call leaves the users as they are, unless it is a registration of a
    free username whose hashing succeeded. *)
Lemma run_users o e :
  users (run o e).2 = users e
  ∨ ∃ username password id now hash,
      o = OpRegisterAccount username password id now (Hashed hash)
      ∧ ¬ username_taken (users e) username
      ∧ users (run o e).2 = <[id := User.mk id username hash 0 false now]> (users e).
Proof.
  destruct o;
    try (left; simpl;
         unfold Start, AuthenticateUser, CreateSubReddit, GetSubReddit,
           ListSubreddits, JoinSubReddit, LeaveSubReddit, CreatePost, GetPost,
           ListPosts, CreateComment, GetComments, Vote, GetFeed,
           SendDirectMessage, GetMessage, GetUserPublicKey, GetUserMessages;
         run_cases; fail).
  apply run_users_register.
Qed.

Lemma unique_usernames_insert (us : gmap string User.t) id u :
  unique_usernames us →
  ¬ username_taken us (User.Username u) →
  unique_usernames (<[id := u]> us).
Proof.
  intros Hu Hfree k1 k2 u1 u2 H1 H2 Heq.
  destruct (decide (k1 = k2)) as [|Hne]; [done|]. exfalso.
  rewrite lookup_insert in H1. rewrite lookup_insert in H2.
  repeat case_decide; simplify_eq.
  all: try (apply Hfree; eexists _, _; split; [eassumption|congruence]).
  by apply Hne, (Hu k1 k2 u1 u2).
Qed.

Lemma reachable_unique_usernames e :
  reachable e → unique_usernames (users e).
Proof.
  induction 1 as [|e o Hr IH].
  - intros k1 k2 u1 u2 H1. simpl in H1. by rewrite lookup_empty in H1.
  - destruct (run_users o e) as [->|(username & password & id & now & hash & _ & Hfree & ->)];
      [done|].
    by apply unique_usernames_insert.
Qed.

Lemma reachable_karma e :
  reachable e → ∀ k u, users e !! k = Some u → User.Karma u = 0.
Proof.
  induction 1 as [|e o Hr IH]; intros k u Hk.
  - simpl in Hk. by rewrite lookup_empty in Hk.
  - destruct (run_users o e) as [Heq|(username & password & id & now & hash & _ & _ & Heq)];
      rewrite Heq in Hk; [by eapply IH|].
    rewrite lookup_insert in Hk. case_decide; simplify_eq; [done|by eapply IH].
Qed.

(** ** Registrations that overlap *)

(** A registration that takes its three steps in a row, nothing happening
    in between, is the call of [RegisterAccount]. *)
Lemma RegisterAccount_advance username password id now hashed e :
  let s1 := advance (AtScan username password id now hashed) e in
  let s2 := advance s1.1 s1.2 in
  let s3 := advance s2.1 s2.2 in
  s3 = (Returned (eval (RegisterAccount username password id now hashed) e),
        exec (RegisterAccount username password id now hashed) e).
Proof.
  unfold eval, exec, RegisterAccount, bind, gets, fail, modify, ret. simpl.
  destruct (Range _ _ _); simpl; [done|].
  destruct hashed; simpl; done.
Qed.










(** ** [Vote] *)

Lemma Vote_target_not_found e userID targetID isUpvote now :
  posts e !! targetID = None → comments e !! targetID = None →
  Vote userID targetID isUpvote now e = (Err ErrTargetNotFound, e).
Proof. intros Hp Hc. unfold Vote. unfold_M. by rewrite Hp, Hc. Qed.

Lemma Vote_first_post e userID targetID isUpvote now p :
  posts e !! targetID = Some p →
  votes e !! voteID userID targetID = None →
  Vote userID targetID isUpvote now e
  = (Ok tt,
     set_votes (insert (voteID userID targetID)
                  (Vote.mk "" userID targetID isUpvote now))
       (set_posts (alter (first_vote_post isUpvote) targetID) e)).
Proof.
  intros Hp Hv. unfold Vote. unfold_M. rewrite Hp. simpl. rewrite Hv.
  by destruct isUpvote.
Qed.

Lemma Vote_first_comment e userID targetID isUpvote now c :
  posts e !! targetID = None →
  comments e !! targetID = Some c →
  votes e !! voteID userID targetID = None →
  Vote userID targetID isUpvote now e
  = (Ok tt,
     set_votes (insert (voteID userID targetID)
                  (Vote.mk "" userID targetID isUpvote now))
       (set_comments (alter (first_vote_comment isUpvote) targetID) e)).
Proof.
  intros Hp Hc Hv. unfold Vote. unfold_M. rewrite Hp, Hc. simpl. rewrite Hv.
  by destruct isUpvote.
Qed.

Lemma Vote_repeat e userID targetID isUpvote now v :
  is_Some (posts e !! targetID) ∨ is_Some (comments e !! targetID) →
  votes e !! voteID userID targetID = Some v →
  Vote.IsUpvote v = isUpvote →
  Vote userID targetID isUpvote now e = (Ok tt, e).
Proof.
  intros Ht Hv Hb. unfold Vote. unfold_M. simpl.
  assert (negb (bool_decide (is_Some (posts e !! targetID)))
          && negb (bool_decide (is_Some (comments e !! targetID))) = false) as ->.
  { destruct Ht as [Ht|Ht]; rewrite (bool_decide_eq_true_2 _ Ht); simpl;
      [done|by rewrite andb_false_r]. }
  rewrite Hv, Hb, Bool.eqb_reflx. done.
Qed.

Lemma Vote_flip_post e userID targetID isUpvote now p v :
  posts e !! targetID = Some p →
  votes e !! voteID userID targetID = Some v →
  Vote.IsUpvote v = negb isUpvote →
  Vote userID targetID isUpvote now e
  = (Ok tt,
     set_votes (alter (Vote.set_IsUpvote isUpvote) (voteID userID targetID))
       (set_posts (alter (flip_vote_post isUpvote) targetID) e)).
Proof.
  intros Hp Hv Hb. unfold Vote. unfold_M. rewrite Hp. simpl. rewrite Hv, Hb.
  destruct isUpvote; simpl; unfold set_posts, set_votes; simpl;
    by rewrite alter_alter_eq.
Qed.

Lemma Vote_flip_comment e userID targetID isUpvote now c v :
  posts e !! targetID = None →
  comments e !! targetID = Some c →
  votes e !! voteID userID targetID = Some v →
  Vote.IsUpvote v = negb isUpvote →
  Vote userID targetID isUpvote now e
  = (Ok tt,
     set_votes (alter (Vote.set_IsUpvote isUpvote) (voteID userID targetID))
       (set_comments (alter (flip_vote_comment isUpvote) targetID) e)).
Proof.
  intros Hp Hc Hv Hb. unfold Vote. unfold_M. rewrite Hp, Hc. simpl. rewrite Hv, Hb.
  destruct isUpvote; simpl; unfold set_comments, set_votes; simpl;
    by rewrite alter_alter_eq.
Qed.

(** C1. The votes of one user on one target. From a state where the user
    has no vote on an existing target whose counters are [(u, d)]: an
    upvote followed by an upvote leaves the state of the single upvote (the
    repeat changes nothing), with counters [(u + 1, d)]; an upvote followed
    by a downvote takes the upvote back and counts the downvote, with
    counters [(u, d + 1)]; the additions are those of [int64], and are the
    plain ones for counters in range and below the largest [int64]. The
    recorded vote has the polarity of the last call; every call succeeds.
    On a target nobody has voted on, the counters are [(1, 0)] and
    [(0, 1)]. *)
Theorem Vote_state_machine e userID targetID now1 now2 u d :
  votes e !! voteID userID targetID = None →
  counters e targetID = Some (u, d) →
  let up := exec (Vote userID targetID true now1) e in
  let up_up := exec (Vote userID targetID true now2) up in
  let up_down := exec (Vote userID targetID false now2) up in
  eval (Vote userID targetID true now1) e = Ok tt
  ∧ eval (Vote userID targetID true now2) up = Ok tt
  ∧ eval (Vote userID targetID false now2) up = Ok tt
  ∧ up_up = up
  ∧ counters up_up targetID = Some (incr u, d)
  ∧ counters up_down targetID = Some (decr (incr u), incr d)
  ∧ Vote.IsUpvote <$> votes up_up !! voteID userID targetID = Some true
  ∧ Vote.IsUpvote <$> votes up_down !! voteID userID targetID = Some false
  ∧ (int64_range u → int64_range d → u < 2 ^ 63 - 1 → d < 2 ^ 63 - 1 →
     counters up_up targetID = Some (u + 1, d)
     ∧ counters up_down targetID = Some (u, d + 1))
  ∧ (u = 0 → d = 0 →
     counters up_up targetID = Some (1, 0)
     ∧ counters up_down targetID = Some (0, 1)).
Proof.
  intros Hv Hc up up_up up_down. unfold counters in Hc.
  destruct (posts e !! targetID) as [p|] eqn:Hp;
    [|destruct (comments e !! targetID) as [c|] eqn:Hcm; [|done]];
    simplify_eq.
  - (* the target is a post *)
    pose proof (Vote_first_post e userID targetID true now1 p Hp Hv) as H1.
    assert (posts up !! targetID = Some (first_vote_post true p)) as Hp1.
    { unfold up, exec. rewrite H1. simpl. by rewrite lookup_alter_eq, Hp. }
    assert (votes up !! voteID userID targetID
            = Some (Vote.mk "" userID targetID true now1)) as Hv1.
    { unfold up, exec. rewrite H1. simpl. by rewrite lookup_insert_eq. }
    pose proof (Vote_repeat up userID targetID true now2 _
                  (or_introl (mk_is_Some _ _ Hp1)) Hv1 eq_refl) as H2.
    pose proof (Vote_flip_post up userID targetID false now2 _ _
                  Hp1 Hv1 eq_refl) as H3.
    assert (up_up = up) as Hup by (unfold up_up, exec; by rewrite H2).
    assert (counters up_down targetID
            = Some (decr (incr (Post.Upvotes p)), incr (Post.Downvotes p))) as Hd.
    { unfold up_down, exec, counters. rewrite H3. simpl.
      by rewrite lookup_alter_eq, Hp1. }
    assert (counters up targetID
            = Some (incr (Post.Upvotes p), Post.Downvotes p)) as Hu.
    { unfold counters. by rewrite Hp1. }
    split_and!.
    + unfold eval. by rewrite H1.
    + unfold eval. by rewrite H2.
    + unfold eval. by rewrite H3.
    + done.
    + by rewrite Hup.
    + done.
    + by rewrite Hup, Hv1.
    + unfold up_down, exec. rewrite H3. simpl.
      by rewrite lookup_alter_eq, Hv1.
    + intros Hru Hrd Hlu Hld. rewrite Hup, Hu, Hd.
      by rewrite decr_incr, !incr_small.
    + intros H0u H0d. rewrite Hup, Hu, Hd, H0u, H0d. done.
  - (* the target is a comment *)
    pose proof (Vote_first_comment e userID targetID true now1 c Hp Hcm Hv) as H1.
    assert (posts up !! targetID = None) as Hp1.
    { unfold up, exec. rewrite H1. simpl. done. }
    assert (comments up !! targetID = Some (first_vote_comment true c)) as Hc1.
    { unfold up, exec. rewrite H1. simpl. by rewrite lookup_alter_eq, Hcm. }
    assert (votes up !! voteID userID targetID
            = Some (Vote.mk "" userID targetID true now1)) as Hv1.
    { unfold up, exec. rewrite H1. simpl. by rewrite lookup_insert_eq. }
    pose proof (Vote_repeat up userID targetID true now2 _
                  (or_intror (mk_is_Some _ _ Hc1)) Hv1 eq_refl) as H2.
    pose proof (Vote_flip_comment up userID targetID false now2 _ _
                  Hp1 Hc1 Hv1 eq_refl) as H3.
    assert (up_up = up) as Hup by (unfold up_up, exec; by rewrite H2).
    assert (counters up_down targetID
            = Some (decr (incr (Comment.Upvotes c)), incr (Comment.Downvotes c))) as Hd.
    { unfold up_down, exec, counters. rewrite H3. simpl.
      by rewrite Hp1, lookup_alter_eq, Hc1. }
    assert (counters up targetID
            = Some (incr (Comment.Upvotes c), Comment.Downvotes c)) as Hu.
    { unfold counters. by rewrite Hp1, Hc1. }
    split_and!.
    + unfold eval. by rewrite H1.
    + unfold eval. by rewrite H2.
    + unfold eval. by rewrite H3.
    + done.
    + by rewrite Hup.
    + done.
    + by rewrite Hup, Hv1.
    + unfold up_down, exec. rewrite H3. simpl.
      by rewrite lookup_alter_eq, Hv1.
    + intros Hru Hrd Hlu Hld. rewrite Hup, Hu, Hd.
      by rewrite decr_incr, !incr_small.
    + intros H0u H0d. rewrite Hup, Hu, Hd, H0u, H0d. done.
Qed.

Lemma Vote_state_machine_witness :
  let up := exec (Vote uid_bob pid_hello true 8) sample in
  counters (exec (Vote uid_bob pid_hello true 9) up) pid_hello = Some (1, 0)
  ∧ counters (exec (Vote uid_bob pid_hello false 9) up) pid_hello = Some (0, 1).
Proof.
  assert (votes sample !! voteID uid_bob pid_hello = None) as Hv
    by (vm_compute; reflexivity).
  assert (counters sample pid_hello = Some (0, 0)) as Hc
    by (vm_compute; reflexivity).
  destruct (Vote_state_machine sample uid_bob pid_hello 8 9 0 0 Hv Hc)
    as (_ & _ & _ & _ & _ & _ & _ & _ & _ & Hfresh).
  by apply Hfresh.
Defined.

(** The claim C1 as it is worded fails on a target that another user has
    voted on: the counters count the votes of all users. After the upvote
    of alice, bob has no vote on the post; bob's upvote followed by an
    upvote leaves the counters at [(2, 0)], not [(1, 0)], and bob's upvote
    followed by a downvote leaves them at [(1, 1)], not [(0, 1)]. *)
Lemma Vote_after_another_user :
  let e := exec (Vote uid_alice pid_hello true 8) sample in
  let up := exec (Vote uid_bob pid_hello true 9) e in
  let up_up := exec (Vote uid_bob pid_hello true 10) up in
  let up_down := exec (Vote uid_bob pid_hello false 10) up in
  reachable e
  ∧ is_Some (posts e !! pid_hello)
  ∧ votes e !! voteID uid_bob pid_hello = None
  ∧ counters e pid_hello = Some (1, 0)
  ∧ counters up_up pid_hello = Some (2, 0)
  ∧ counters up_down pid_hello = Some (1, 1)
  ∧ counters up_up pid_hello ≠ Some (1, 0)
  ∧ counters up_down pid_hello ≠ Some (0, 1).
Proof.
  intros e up up_up up_down.
  assert (counters up_up pid_hello = Some (2, 0)) as Huu
    by (vm_compute; reflexivity).
  assert (counters up_down pid_hello = Some (1, 1)) as Hud
    by (vm_compute; reflexivity).
  assert (bool_decide (is_Some (posts e !! pid_hello)) = true) as Hpost
    by (vm_compute; reflexivity).
  split_and!.
  - apply (reachable_run sample (OpVote uid_alice pid_hello true 8)).
    apply reachable_run_all, reachable_new.
  - by apply bool_decide_eq_true in Hpost.
  - vm_compute. reflexivity.
  - vm_compute. reflexivity.
  - exact Huu.
  - exact Hud.
  - rewrite Huu. discriminate.
  - rewrite Hud. discriminate.
Qed.

(** ** [CreateComment] *)

(** Whatever the parent, the comment that [CreateComment] builds has the
    depth of the zero value: no statement of the function assigns
    [Depth]. *)
Lemma CreateComment_depth e content authorID postID parentCommentID id now c e' :
  CreateComment content authorID postID parentCommentID id now e = (Ok c, e') →
  Comment.Depth c = 0 ∧ Comment.ParentID c = parentCommentID
  ∧ comments e' !! id = Some c.
Proof.
  unfold CreateComment. unfold_M. intros H.
  repeat (case_match; simplify_eq; simpl in * ); simplify_eq; simpl;
    by rewrite lookup_insert_eq.
Qed.

(** C2. In the sample engine, a reply to the top-level comment [cid_first]
    is created with success, has [cid_first] as its parent and is stored
    with depth 0, which is not the depth of its parent plus one. *)
Theorem CreateComment_reply_depth :
  ∃ parent c,
    comments sample !! cid_first = Some parent
    ∧ CreateComment "me too" uid_bob pid_hello (Some cid_first) cid_reply 8 sample
      = (Ok c, set_comments (insert cid_reply c) sample)
    ∧ Comment.ParentID c = Some cid_first
    ∧ Comment.Depth c = 0
    ∧ Comment.Depth c ≠ Comment.Depth parent + 1.
Proof.
  exists (Comment.mk cid_first "first" uid_alice pid_hello None 0 0 0 6),
    (Comment.mk cid_reply "me too" uid_bob pid_hello (Some cid_first) 0 0 0 8).
  split_and!; try (vm_compute; reflexivity). simpl. lia.
Qed.

(** ** Membership *)

Lemma JoinSubReddit_ok e userID subredditID u s :
  users e !! userID = Some u →
  subreddits e !! subredditID = Some s →
  JoinSubReddit userID subredditID e
  = (Ok tt,
     set_subreddits
       (alter (SubReddit.set_Members (insert userID true)) subredditID) e).
Proof. intros Hu Hs. unfold JoinSubReddit. unfold_M. by rewrite Hs, Hu. Qed.

Lemma JoinSubReddit_user_not_found e userID subredditID s :
  users e !! userID = None →
  subreddits e !! subredditID = Some s →
  JoinSubReddit userID subredditID e = (Err ErrUserNotFound, e).
Proof. intros Hu Hs. unfold JoinSubReddit. unfold_M. by rewrite Hs, Hu. Qed.

Lemma LeaveSubReddit_ok e userID subredditID s :
  subreddits e !! subredditID = Some s →
  LeaveSubReddit userID subredditID e
  = (Ok tt,
     set_subreddits
       (alter (SubReddit.set_Members (delete userID)) subredditID) e).
Proof. intros Hs. unfold LeaveSubReddit. unfold_M. by rewrite Hs. Qed.

Lemma LeaveSubReddit_not_found e userID subredditID :
  subreddits e !! subredditID = None →
  LeaveSubReddit userID subredditID e = (Err ErrSubredditNotFound, e).
Proof. intros Hs. unfold LeaveSubReddit. unfold_M. by rewrite Hs. Qed.

(** ** [CreatePost] *)

Lemma CreatePost_member e title content authorID subredditID id now a s :
  users e !! authorID = Some a →
  subreddits e !! subredditID = Some s →
  isMember authorID s →
  let post := Post.mk id title content authorID subredditID false "" 0 0 0 now in
  CreatePost title content authorID subredditID id now e
  = (Ok post, set_posts (insert id post) e).
Proof.
  intros Ha Hs [b Hm]. unfold CreatePost. unfold_M. by rewrite Ha, Hs, Hm.
Qed.

Lemma CreatePost_not_member e title content authorID subredditID id now a s :
  users e !! authorID = Some a →
  subreddits e !! subredditID = Some s →
  ¬ isMember authorID s →
  CreatePost title content authorID subredditID id now e = (Err ErrNotMember, e).
Proof.
  intros Ha Hs Hm. unfold CreatePost. unfold_M. rewrite Ha, Hs.
  destruct (SubReddit.Members s !! authorID) eqn:Hl; [|done].
  destruct Hm. by eexists.
Qed.

(** C4. When the author and the subreddit exist, [CreatePost] fails exactly
    when the author is not in the membership of the subreddit, and the
    failure is the error of a non-member, of kind PermissionDenied, with
    nothing stored; a member's call stores the post. After [JoinSubReddit]
    of the author to the subreddit the same call succeeds and stores the
    post. *)
Theorem CreatePost_membership_gate e title content authorID subredditID id now a s :
  users e !! authorID = Some a →
  subreddits e !! subredditID = Some s →
  let call := CreatePost title content authorID subredditID id now in
  let post := Post.mk id title content authorID subredditID false "" 0 0 0 now in
  let joined := exec (JoinSubReddit authorID subredditID) e in
  ((∃ err, eval call e = Err err) ↔ ¬ isMember authorID s)
  ∧ (∀ err, eval call e = Err err → err = ErrNotMember ∧ kind err = PermissionDenied)
  ∧ (¬ isMember authorID s → call e = (Err ErrNotMember, e))
  ∧ (isMember authorID s → call e = (Ok post, set_posts (insert id post) e))
  ∧ eval (JoinSubReddit authorID subredditID) e = Ok tt
  ∧ call joined = (Ok post, set_posts (insert id post) joined)
  ∧ posts (exec call joined) !! id = Some post.
Proof.
  intros Ha Hs call post joined.
  assert (isMember authorID s ∨ ¬ isMember authorID s) as Hdec.
  { unfold isMember. destruct (SubReddit.Members s !! authorID); [left|right].
    - by eexists.
    - by intros [? ?]. }
  assert (call joined = (Ok post, set_posts (insert id post) joined)) as Hj.
  { unfold call, joined, exec. rewrite (JoinSubReddit_ok _ _ _ _ _ Ha Hs). simpl.
    eapply CreatePost_member.
    - done.
    - simpl. by rewrite lookup_alter_eq, Hs.
    - eexists. simpl. apply lookup_insert_eq. }
  split_and!.
  - unfold eval, call. destruct Hdec as [Hm|Hm].
    + rewrite (CreatePost_member _ _ _ _ _ _ _ _ _ Ha Hs Hm). simpl.
      split; [by intros [? ?]|done].
    + rewrite (CreatePost_not_member _ _ _ _ _ _ _ _ _ Ha Hs Hm). simpl.
      split; [done|]. intros _. by eexists.
  - intros err. unfold eval, call. destruct Hdec as [Hm|Hm].
    + by rewrite (CreatePost_member _ _ _ _ _ _ _ _ _ Ha Hs Hm).
    + rewrite (CreatePost_not_member _ _ _ _ _ _ _ _ _ Ha Hs Hm). simpl.
      intros [= <-]. done.
  - intros Hm. by eapply CreatePost_not_member.
  - intros Hm. by eapply CreatePost_member.
  - unfold eval. by rewrite (JoinSubReddit_ok _ _ _ _ _ Ha Hs).
  - done.
  - unfold exec. rewrite Hj. simpl. apply lookup_insert_eq.
Qed.

Lemma CreatePost_membership_gate_witness :
  let call := CreatePost "generics" "at last" uid_bob sid_golang pid_generics 8 in
  call sample = (Err ErrNotMember, sample)
  ∧ eval call (exec (JoinSubReddit uid_bob sid_golang) sample)
    = Ok (Post.mk pid_generics "generics" "at last" uid_bob sid_golang false "" 0 0 0 8).
Proof.
  assert (users sample !! uid_bob
          = Some (User.mk uid_bob "bob" "$2a$10$bob" 0 false 2)) as Hu
    by (vm_compute; reflexivity).
  assert (subreddits sample !! sid_golang
          = Some (SubReddit.mk sid_golang "golang" "The Go language" uid_alice 0 0 4
                    {[ uid_alice := true ]})) as Hs
    by (vm_compute; reflexivity).
  destruct (CreatePost_membership_gate sample "generics" "at last" uid_bob
              sid_golang pid_generics 8 _ _ Hu Hs)
    as (_ & _ & Hno & _ & _ & Hyes & _).
  split.
  - apply Hno. intros [b Hb]. vm_compute in Hb. discriminate.
  - unfold eval. by rewrite Hyes.
Defined.

(** ** [GetFeed] *)

(** The subreddits that the scan of [GetFeed] marks. *)
Lemma subscriptions_scan userID (l : list (string * SubReddit.t))
    (subs : gmap string bool) sid :
  default false
    (range_entries
       (λ _ subreddit subs,
          if SubReddit.Members subreddit !! userID is Some _
          then (<[SubReddit.ID subreddit := true]> subs, true)
          else (subs, true))
       l subs !! sid) = true
  ↔ default false (subs !! sid) = true
    ∨ ∃ ks, ks ∈ l ∧ isMember userID ks.2 ∧ SubReddit.ID ks.2 = sid.
Proof.
  revert subs. induction l as [|[k s] l IH]; intros subs; simpl.
  - split; [auto|]. intros [?|(ks & Hin & _)]; [done|]. by apply elem_of_nil in Hin.
  - destruct (SubReddit.Members s !! userID) as [b|] eqn:Hm; rewrite IH.
    + split.
      * intros [Hs|(ks & Hin & Hks)].
        -- rewrite lookup_insert in Hs. case_decide as Hid; [|by left].
           right. exists (k, s). split_and!; [left|by eexists|done].
        -- right. exists ks. split; [by right|done].
      * intros [Hs|(ks & Hin & Hmem & Hid)].
        -- left. rewrite lookup_insert. by case_decide.
        -- apply elem_of_cons in Hin as [->|Hin].
           ++ left. simpl in Hid. rewrite <- Hid. by rewrite lookup_insert_eq.
           ++ right. by exists ks.
    + split.
      * intros [Hs|(ks & Hin & Hks)]; [by left|].
        right. exists ks. split; [by right|done].
      * intros [Hs|(ks & Hin & [b Hmem] & Hid)]; [by left|].
        apply elem_of_cons in Hin as [->|Hin]; [simpl in Hmem; congruence|].
        right. exists ks. split_and!; [done|by eexists|done].
Qed.

Lemma userSubscriptions_spec e userID sid :
  default false (userSubscriptions e userID !! sid) = true
  ↔ ∃ k s, subreddits e !! k = Some s ∧ isMember userID s ∧ SubReddit.ID s = sid.
Proof.
  unfold userSubscriptions, Range. rewrite subscriptions_scan. split.
  - intros [Hs|([k s] & Hin & Hks)]; [by rewrite lookup_empty in Hs|].
    exists k, s. split; [by apply elem_of_map_to_list|done].
  - intros (k & s & Hk & Hks). right. exists (k, s).
    split; [by apply elem_of_map_to_list|done].
Qed.

(** [GetFeed] never fails, leaves the engine as it is and returns the
    stored posts whose subreddit is marked, in the order of the scan. *)
Lemma GetFeed_filter e userID :
  GetFeed userID e
  = (Ok (filter
           (λ kp, default false
                    (userSubscriptions e userID !! Post.SubRedditID kp.2) = true)
           (map_to_list (posts e))).*2,
     e).
Proof.
  unfold GetFeed. unfold_M. unfold Range. f_equal. f_equal.
  by rewrite (range_entries_collect
                (λ p, default false
                        (userSubscriptions e userID !! Post.SubRedditID p))).
Qed.

Ltac unfold_ops :=
  unfold Start, RegisterAccount, AuthenticateUser, CreateSubReddit, GetSubReddit,
    ListSubreddits, JoinSubReddit, LeaveSubReddit, CreatePost, GetPost,
    ListPosts, CreateComment, GetComments, Vote, GetFeed,
    SendDirectMessage, GetMessage, GetUserPublicKey, GetUserMessages.

Ltac lookup_cases H :=
  repeat first
    [ rewrite lookup_insert in H; case_decide; simplify_eq
    | rewrite lookup_alter in H; case_decide; simplify_eq
    | let y := fresh "y" in let Hy := fresh "Hy" in
      apply fmap_Some in H as (y & Hy & ->); rename Hy into H ].

Lemma run_keyed o e : keyed e → keyed (run o e).2.
Proof.
  intros [Hs Hp].
  destruct o; simpl; unfold_ops; run_cases;
    (split; [intros k s Hk|intros k p Hk]); simpl in Hk;
    try (by apply Hs); try (by apply Hp).
  all: lookup_cases Hk; simpl; try done; try (by apply Hs); try (by apply Hp).
Qed.

Lemma reachable_keyed e : reachable e → keyed e.
Proof.
  induction 1 as [|e o Hr IH].
  - split; intros k x Hk; simpl in Hk; by rewrite lookup_empty in Hk.
  - by apply run_keyed.
Qed.

(** C5. [GetFeed] succeeds, changes nothing and returns the stored posts
    whose [SubRedditID] is the identifier of a subreddit that has the user
    in its membership, each stored post once and no other post. In an
    engine that calls of the methods build, where a subreddit is stored
    under its identifier, these are the posts whose subreddit exists and
    has the user as a member. As the posts are looked up in the store, the
    order in which they were created plays no part. *)
Theorem GetFeed_exact e userID :
  ∃ feed,
    GetFeed userID e = (Ok feed, e)
    ∧ (∀ p, p ∈ feed
         ↔ (∃ k, posts e !! k = Some p)
           ∧ ∃ k s, subreddits e !! k = Some s ∧ isMember userID s
                    ∧ SubReddit.ID s = Post.SubRedditID p)
    ∧ (∃ entries : list (string * Post.t),
         feed = entries.*2 ∧ NoDup entries
         ∧ ∀ k p, (k, p) ∈ entries
             ↔ posts e !! k = Some p
               ∧ ∃ k' s, subreddits e !! k' = Some s ∧ isMember userID s
                         ∧ SubReddit.ID s = Post.SubRedditID p)
    ∧ (reachable e →
       ∀ p, p ∈ feed
         ↔ posts e !! Post.ID p = Some p
           ∧ ∃ s, subreddits e !! Post.SubRedditID p = Some s ∧ isMember userID s).
Proof.
  eexists. split; [apply GetFeed_filter|].
  assert (∀ k p,
    (k, p) ∈ filter
      (λ kp, default false
               (userSubscriptions e userID !! Post.SubRedditID kp.2) = true)
      (map_to_list (posts e))
    ↔ posts e !! k = Some p
      ∧ ∃ k' s, subreddits e !! k' = Some s ∧ isMember userID s
                ∧ SubReddit.ID s = Post.SubRedditID p) as Hentries.
  { intros k p. rewrite list_elem_of_filter, elem_of_map_to_list. simpl.
    rewrite userSubscriptions_spec. tauto. }
  assert (∀ p,
    p ∈ (filter
      (λ kp, default false
               (userSubscriptions e userID !! Post.SubRedditID kp.2) = true)
      (map_to_list (posts e))).*2
    ↔ (∃ k, posts e !! k = Some p)
      ∧ ∃ k s, subreddits e !! k = Some s ∧ isMember userID s
               ∧ SubReddit.ID s = Post.SubRedditID p) as Hfeed.
  { intros p. rewrite list_elem_of_fmap. split.
    - intros ([k p'] & -> & Hin). apply Hentries in Hin as [Hk Hsub].
      split; [by exists k|done].
    - intros [[k Hk] Hsub]. exists (k, p). split; [done|]. by apply Hentries. }
  split_and!.
  - done.
  - eexists. split_and!; [done| |done].
    apply NoDup_filter, NoDup_map_to_list.
  - intros [Hks Hkp]%reachable_keyed p. rewrite Hfeed. split.
    + intros [[k Hk] (k' & s & Hk' & Hm & Hid)].
      split.
      * by rewrite (Hkp _ _ Hk).
      * exists s. split; [|done]. rewrite <- Hid. by rewrite (Hks _ _ Hk').
    + intros [Hk (s & Hk' & Hm)]. split; [by eexists|].
      exists (Post.SubRedditID p), s. split_and!; [done..|]. by apply Hks.
Qed.

(** Two creations of posts with different identifiers leave the same
    engine in either order, so the feed after them is the same. *)
Lemma CreatePost_order e t1 c1 a1 s1 id1 now1 t2 c2 a2 s2 id2 now2 :
  id1 ≠ id2 →
  exec (CreatePost t2 c2 a2 s2 id2 now2) (exec (CreatePost t1 c1 a1 s1 id1 now1) e)
  = exec (CreatePost t1 c1 a1 s1 id1 now1) (exec (CreatePost t2 c2 a2 s2 id2 now2) e).
Proof.
  intros Hne. unfold exec, CreatePost. unfold_M. simpl.
  repeat (case_match; simplify_eq; simpl in * ); try done.
  all: try congruence.
  all: unfold set_posts; simpl; f_equal; by apply insert_insert_ne.
Qed.

Lemma GetFeed_exact_witness :
  ∃ feed,
    GetFeed uid_bob feed_sample = (Ok feed, feed_sample)
    ∧ (∀ p, p ∈ feed
         ↔ posts feed_sample !! Post.ID p = Some p
           ∧ (Post.SubRedditID p = sid_golang ∨ Post.SubRedditID p = sid_rust)).
Proof.
  destruct (GetFeed_exact feed_sample uid_bob) as (feed & Hfeed & _ & _ & Hmem).
  exists feed. split; [exact Hfeed|]. intros p.
  rewrite Hmem by (do 2 apply reachable_run_all; apply reachable_new).
  apply and_iff_compat_l.
  assert (subreddits feed_sample
          = <[sid_golang := SubReddit.mk sid_golang "golang" "The Go language"
                uid_alice 0 0 4 (<[uid_bob := true]> {[uid_alice := true]})]>
            (<[sid_rust := SubReddit.mk sid_rust "rust" "The Rust language"
                 uid_alice 0 0 8 (<[uid_bob := true]> {[uid_alice := true]})]>
             {[sid_haskell := SubReddit.mk sid_haskell "haskell"
                 "The Haskell language" uid_carol 0 0 9 {[uid_carol := true]}]}))
    as -> by (vm_compute; reflexivity).
  split.
  - intros (s & Hs & [b Hb]).
    rewrite lookup_insert in Hs. case_decide; [by left|].
    rewrite lookup_insert in Hs. case_decide; [by right|].
    exfalso. rewrite lookup_singleton in Hs. case_decide; [|done].
    injection Hs as <-. vm_compute in Hb. discriminate Hb.
  - intros [->| ->].
    + eexists. split; [apply lookup_insert_eq|].
      exists true. vm_compute. reflexivity.
    + eexists. split.
      * rewrite lookup_insert_ne by discriminate. apply lookup_insert_eq.
      * exists true. vm_compute. reflexivity.
Defined.

(** ** Failures *)

(** C6. A call that returns an error leaves the engine as it was: in each
    method every test that can fail comes before the first store. This
    holds for [RegisterAccount], [CreateSubReddit], [JoinSubReddit],
    [LeaveSubReddit], [CreatePost], [CreateComment], [Vote],
    [SendDirectMessage] and [GetMessage], and for the other methods. *)
Theorem error_leaves_engine o e err :
  (run o e).1 = Some err → (run o e).2 = e.
Proof.
  destruct o; simpl; unfold_ops; unfold_M; simpl;
    repeat (case_match; simplify_eq; simpl in * ); done.
Qed.

Lemma error_leaves_engine_witness :
  (run (OpVote uid_bob cid_reply true 8) sample).1 = Some ErrTargetNotFound
  ∧ (run (OpVote uid_bob cid_reply true 8) sample).2 = sample.
Proof.
  assert ((run (OpVote uid_bob cid_reply true 8) sample).1
          = Some ErrTargetNotFound) as Herr by (vm_compute; reflexivity).
  split; [exact Herr|].
  exact (error_leaves_engine (OpVote uid_bob cid_reply true 8) sample
           ErrTargetNotFound Herr).
Defined.

(** ** [GetMessage] *)

(** C7. For a stored message, [GetMessage] fails with the error of an
    unauthorized access, of kind PermissionDenied, exactly when the user is
    neither the sender nor the recipient, and returns the message when the
    user is one of the two; for an identifier that no message has it fails
    with the error of a message not found, of kind NotFound. The engine is
    left as it was in every case. *)
Theorem GetMessage_authorized e userID messageID :
  (∀ msg, messages e !! messageID = Some msg →
     (eval (GetMessage userID messageID) e = Err ErrUnauthorized
      ↔ DirectMessage.FromID msg ≠ userID ∧ DirectMessage.ToID msg ≠ userID)
     ∧ (DirectMessage.FromID msg = userID ∨ DirectMessage.ToID msg = userID →
        eval (GetMessage userID messageID) e = Ok msg)
     ∧ (∀ err, eval (GetMessage userID messageID) e = Err err →
        err = ErrUnauthorized))
  ∧ (messages e !! messageID = None →
     eval (GetMessage userID messageID) e = Err ErrMessageNotFound)
  ∧ kind ErrUnauthorized = PermissionDenied
  ∧ kind ErrMessageNotFound = NotFound
  ∧ exec (GetMessage userID messageID) e = e.
Proof.
  split_and!; [|intros Hm|done|done|].
  - intros msg Hm. unfold eval, GetMessage. unfold_M. rewrite Hm. simpl.
    destruct (decide (DirectMessage.FromID msg = userID)) as [Hf|Hf],
      (decide (DirectMessage.ToID msg = userID)) as [Ht|Ht];
      rewrite ?(bool_decide_eq_true_2 _ Hf), ?(bool_decide_eq_false_2 _ Hf),
        ?(bool_decide_eq_true_2 _ Ht), ?(bool_decide_eq_false_2 _ Ht); simpl;
      (split_and!; [split; [try done; intros [? ?]; done|try done; tauto]
                   |try done; tauto|try done]).
    intros err [= <-]. done.
  - unfold eval, GetMessage. unfold_M. by rewrite Hm.
  - unfold exec, GetMessage. unfold_M. simpl.
    repeat (case_match; simpl); done.
Qed.

Lemma GetMessage_authorized_witness :
  eval (GetMessage uid_carol mid_hi) sample = Err ErrUnauthorized
  ∧ eval (GetMessage uid_bob mid_hi) sample
    = Ok (DirectMessage.mk mid_hi uid_alice uid_bob "hi" false 7).
Proof.
  assert (messages sample !! mid_hi
          = Some (DirectMessage.mk mid_hi uid_alice uid_bob "hi" false 7)) as Hm
    by (vm_compute; reflexivity).
  split.
  - destruct (GetMessage_authorized sample uid_carol mid_hi) as (Hstored & _).
    apply (Hstored _ Hm). cbn [DirectMessage.FromID DirectMessage.ToID].
    split; discriminate.
  - destruct (GetMessage_authorized sample uid_bob mid_hi) as (Hstored & _).
    apply (Hstored _ Hm). right. reflexivity.
Defined.

(** ** [JoinSubReddit] and [LeaveSubReddit] *)

(** C8. For an existing user and an existing subreddit, [JoinSubReddit]
    succeeds, a second [JoinSubReddit] right after it succeeds too, and the
    engine after the two calls is the engine after the first one. *)
Theorem JoinSubReddit_idempotent e userID subredditID u s :
  users e !! userID = Some u →
  subreddits e !! subredditID = Some s →
  let once := exec (JoinSubReddit userID subredditID) e in
  JoinSubReddit userID subredditID e = (Ok tt, once)
  ∧ JoinSubReddit userID subredditID once = (Ok tt, once)
  ∧ subreddits once !! subredditID
    = Some (SubReddit.set_Members (insert userID true) s).
Proof.
  intros Hu Hs once.
  pose proof (JoinSubReddit_ok e userID subredditID u s Hu Hs) as H1.
  assert (once = set_subreddits
            (alter (SubReddit.set_Members (insert userID true)) subredditID) e)
    as Honce by (unfold once, exec; by rewrite H1).
  assert (subreddits once !! subredditID
          = Some (SubReddit.set_Members (insert userID true) s)) as Hs1.
  { rewrite Honce. simpl. by rewrite lookup_alter_eq, Hs. }
  split_and!; [by rewrite Honce| |done].
  rewrite (JoinSubReddit_ok once userID subredditID u _
             ltac:(by rewrite Honce) Hs1).
  f_equal. rewrite Honce. unfold set_subreddits. simpl. f_equal.
  rewrite alter_alter_eq. apply map_eq. intros k.
  rewrite !lookup_alter. case_decide; [|done].
  destruct (subreddits e !! subredditID) as [s'|]; [|done]. simpl. f_equal.
  unfold SubReddit.set_Members. simpl. f_equal. apply insert_insert_eq.
Qed.

Lemma JoinSubReddit_idempotent_witness :
  let once := exec (JoinSubReddit uid_bob sid_golang) sample in
  JoinSubReddit uid_bob sid_golang sample = (Ok tt, once)
  ∧ JoinSubReddit uid_bob sid_golang once = (Ok tt, once).
Proof.
  assert (users sample !! uid_bob
          = Some (User.mk uid_bob "bob" "$2a$10$bob" 0 false 2)) as Hu
    by (vm_compute; reflexivity).
  assert (subreddits sample !! sid_golang
          = Some (SubReddit.mk sid_golang "golang" "The Go language" uid_alice 0 0 4
                    {[ uid_alice := true ]})) as Hs
    by (vm_compute; reflexivity).
  destruct (JoinSubReddit_idempotent sample uid_bob sid_golang _ _ Hu Hs)
    as (H1 & H2 & _).
  split; [exact H1|exact H2].
Defined.

(** C9. [LeaveSubReddit] looks at the subreddit only: whatever the user
    identifier, also one that no user has, it succeeds when the subreddit
    exists, taking the identifier out of the membership, and it fails, with
    the error of a subreddit not found, exactly when the subreddit does not
    exist. [JoinSubReddit] with an identifier that no user has fails on an
    existing subreddit. *)
Theorem LeaveSubReddit_checks_subreddit_only e userID subredditID :
  (∀ s, subreddits e !! subredditID = Some s →
     LeaveSubReddit userID subredditID e
     = (Ok tt,
        set_subreddits
          (insert subredditID (SubReddit.set_Members (delete userID) s)) e)
     ∧ (users e !! userID = None →
        JoinSubReddit userID subredditID e = (Err ErrUserNotFound, e)))
  ∧ (subreddits e !! subredditID = None →
     LeaveSubReddit userID subredditID e = (Err ErrSubredditNotFound, e))
  ∧ (∀ err, eval (LeaveSubReddit userID subredditID) e = Err err →
     err = ErrSubredditNotFound ∧ kind err = NotFound
     ∧ subreddits e !! subredditID = None).
Proof.
  split_and!.
  - intros s Hs. split.
    + rewrite (LeaveSubReddit_ok _ _ _ _ Hs). f_equal.
      unfold set_subreddits. f_equal. apply map_eq. intros k.
      rewrite lookup_alter, lookup_insert. case_decide; [|done].
      by rewrite Hs.
    + intros Hu. by eapply JoinSubReddit_user_not_found.
  - apply LeaveSubReddit_not_found.
  - intros err. unfold eval.
    destruct (subreddits e !! subredditID) as [s|] eqn:Hs.
    + by rewrite (LeaveSubReddit_ok _ _ _ _ Hs).
    + rewrite (LeaveSubReddit_not_found _ _ _ Hs). simpl. by intros [= <-].
Qed.

Lemma LeaveSubReddit_checks_subreddit_only_witness :
  users sample !! uid_dave = None
  ∧ eval (LeaveSubReddit uid_dave sid_golang) sample = Ok tt
  ∧ JoinSubReddit uid_dave sid_golang sample = (Err ErrUserNotFound, sample)
  ∧ LeaveSubReddit uid_dave sid_rust sample = (Err ErrSubredditNotFound, sample).
Proof.
  assert (users sample !! uid_dave = None) as Hu by (vm_compute; reflexivity).
  assert (subreddits sample !! sid_golang
          = Some (SubReddit.mk sid_golang "golang" "The Go language" uid_alice 0 0 4
                    {[ uid_alice := true ]})) as Hs
    by (vm_compute; reflexivity).
  assert (subreddits sample !! sid_rust = None) as Hr by (vm_compute; reflexivity).
  destruct (LeaveSubReddit_checks_subreddit_only sample uid_dave sid_golang)
    as (Hex & _ & _).
  destruct (Hex _ Hs) as (Hleave & Hjoin).
  destruct (LeaveSubReddit_checks_subreddit_only sample uid_dave sid_rust)
    as (_ & Hmiss & _).
  split_and!.
  - exact Hu.
  - unfold eval. rewrite Hleave. reflexivity.
  - exact (Hjoin Hu).
  - exact (Hmiss Hr).
Defined.

(** ** Karma *)

(** What [Vote] leaves alone: the users, the subreddits, the messages, the
    posts and comments other than the target, the votes under other keys,
    and of the target everything but its two counters. *)
Lemma Vote_frame e userID targetID isUpvote now :
  let e' := exec (Vote userID targetID isUpvote now) e in
  users e' = users e
  ∧ subreddits e' = subreddits e
  ∧ messages e' = messages e
  ∧ (∀ k, k ≠ targetID →
       posts e' !! k = posts e !! k ∧ comments e' !! k = comments e !! k)
  ∧ (∀ k, k ≠ voteID userID targetID → votes e' !! k = votes e !! k)
  ∧ (∀ p, posts e !! targetID = Some p →
       ∃ p', posts e' !! targetID = Some p'
             ∧ Post.set_Upvotes (λ _, Post.Upvotes p)
                 (Post.set_Downvotes (λ _, Post.Downvotes p) p') = p)
  ∧ (∀ c, comments e !! targetID = Some c →
       ∃ c', comments e' !! targetID = Some c'
             ∧ Comment.set_Upvotes (λ _, Comment.Upvotes c)
                 (Comment.set_Downvotes (λ _, Comment.Downvotes c) c') = c).
Proof.
  unfold exec, Vote. unfold_M. simpl.
  repeat (case_match; simplify_eq; simpl in * );
    (split_and!; [done|done|done| | | | ]).
  all: try (intros k Hk; rewrite ?lookup_alter_ne, ?lookup_insert_ne by done; done).
  all: intros x Hx; rewrite ?lookup_alter_eq, ?Hx; simpl;
    eexists; (split; [done|]); by destruct x.
Qed.

(** C10. In every engine that calls of the methods build, every stored
    user has karma 0. A call never changes a stored user: a user found in
    the store after a call was there before the call, the same in every
    field, or is the user that this call registered, with karma 0. [Vote]
    leaves the store of users as it is: it changes the two counters of its
    target and the record of the vote, and nothing else. *)
Theorem karma_never_modified :
  (∀ e, reachable e → ∀ k u, users e !! k = Some u → User.Karma u = 0)
  ∧ (∀ o e k u,
       users (run o e).2 !! k = Some u →
       users e !! k = Some u
       ∨ (User.Karma u = 0
          ∧ ∃ username password now hash,
              o = OpRegisterAccount username password k now (Hashed hash)))
  ∧ (∀ e userID targetID isUpvote now,
       let e' := exec (Vote userID targetID isUpvote now) e in
       users e' = users e
       ∧ subreddits e' = subreddits e
       ∧ messages e' = messages e
       ∧ (∀ k, k ≠ targetID →
            posts e' !! k = posts e !! k ∧ comments e' !! k = comments e !! k)
       ∧ (∀ k, k ≠ voteID userID targetID → votes e' !! k = votes e !! k)
       ∧ (∀ p, posts e !! targetID = Some p →
            ∃ p', posts e' !! targetID = Some p'
                  ∧ Post.set_Upvotes (λ _, Post.Upvotes p)
                      (Post.set_Downvotes (λ _, Post.Downvotes p) p') = p)
       ∧ (∀ c, comments e !! targetID = Some c →
            ∃ c', comments e' !! targetID = Some c'
                  ∧ Comment.set_Upvotes (λ _, Comment.Upvotes c)
                      (Comment.set_Downvotes (λ _, Comment.Downvotes c) c') = c)).
Proof.
  split_and!.
  - apply reachable_karma.
  - intros o e k u Hk.
    destruct (run_users o e)
      as [Heq|(username & password & id & now & hash & -> & _ & Heq)];
      rewrite Heq in Hk; [by left|].
    rewrite lookup_insert in Hk. case_decide; simplify_eq; [|by left].
    right. split; [done|]. by exists username, password, now, hash.
  - apply Vote_frame.
Qed.

Lemma karma_never_modified_witness :
  User.Karma <$> users sample !! uid_alice = Some 0
  ∧ User.Karma
    <$> users (exec (Vote uid_bob pid_hello true 8) sample) !! uid_alice = Some 0.
Proof.
  destruct karma_never_modified as (Hzero & _ & Hvote).
  assert (users sample !! uid_alice
          = Some (User.mk uid_alice "alice" "$2a$10$alice" 0 false 1)) as Hu
    by (vm_compute; reflexivity).
  pose proof (Hzero sample (reachable_run_all _ _ reachable_new) _ _ Hu) as Hk.
  destruct (Hvote sample uid_bob pid_hello true 8) as (Husers & _).
  rewrite Husers, Hu. cbn [fmap option_fmap option_map]. split; by rewrite Hk.
Defined.

(** * Further properties of the engine *)

(** ** [AuthenticateUser] *)

Section range_first.
Context {K V : Type}.

(** A scan that keeps the first entry with a property either finds no such
    entry and answers the initial value, or answers a scanned entry that
    has the property. *)
Lemma range_entries_first (P : V → bool) (l : list (K * V)) (init : option V) :
  let r := range_entries
             (λ _ v acc, if P v then (Some v, false) else (acc, true)) l init in
  (r = init ∧ ∀ kv, kv ∈ l → P kv.2 = false)
  ∨ (∃ kv, kv ∈ l ∧ P kv.2 = true ∧ r = Some kv.2).
Proof.
  revert init. induction l as [|[k v] l IH]; intros init; simpl.
  - left. split; [done|]. intros kv Hin. by apply elem_of_nil in Hin.
  - destruct (P v) eqn:HP.
    + right. exists (k, v). split_and!; [left|done|done].
    + destruct (IH init) as [[Hr Hall]|(kv & Hin & Hkv & Hr)].
      * left. split; [done|]. intros kv [->|Hin]%elem_of_cons; [done|by apply Hall].
      * right. exists kv. split_and!; [by right|done|done].
Qed.
End range_first.

Lemma reachable_users_keyed e :
  reachable e → ∀ k u, users e !! k = Some u → User.ID u = k.
Proof.
  induction 1 as [|e o Hr IH]; intros k u Hk.
  - simpl in Hk. by rewrite lookup_empty in Hk.
  - destruct (run_users o e) as [Heq|(username & password & id & now & hash & _ & _ & Heq)];
      rewrite Heq in Hk; [by eapply IH|].
    rewrite lookup_insert in Hk. case_decide; simplify_eq; [done|by eapply IH].
Qed.

Lemma AuthenticateUser_scan (us : gmap string User.t) (username : string) :
  let r := Range us
             (λ _ u user,
                if bool_decide (User.Username u = username) then (Some u, false)
                else (user, true))
             None in
  (r = None ∧ ¬ username_taken us username)
  ∨ (∃ k u, us !! k = Some u ∧ User.Username u = username ∧ r = Some u).
Proof.
  unfold Range.
  destruct (range_entries_first
              (λ u, bool_decide (User.Username u = username))
              (map_to_list us) None) as [[Hr Hall]|([k u] & Hin & Hu & Hr)].
  - left. split; [done|]. intros (k & u & Hk & Hu).
    apply elem_of_map_to_list in Hk. apply Hall in Hk. simpl in Hk.
    by apply bool_decide_eq_false in Hk.
  - right. exists k, u. split_and!; [by apply elem_of_map_to_list| |done].
    by apply bool_decide_eq_true in Hu.
Qed.

(** X1. [AuthenticateUser] changes nothing and answers by the username
    alone. For a username that no stored user has it fails with the error
    of a user not found, whatever the password. In an engine that calls of
    the methods build, for the username of a stored user it returns the key
    of that user as the token when the password is accepted, and fails with
    the error of an invalid password when it is not. *)
Theorem AuthenticateUser_token e username password matches :
  exec (AuthenticateUser username password matches) e = e
  ∧ (¬ username_taken (users e) username →
     eval (AuthenticateUser username password matches) e = Err ErrUserNotFound)
  ∧ (reachable e →
     ∀ k u, users e !! k = Some u → User.Username u = username →
       eval (AuthenticateUser username password matches) e
       = if matches then Ok k else Err ErrInvalidPassword).
Proof.
  split_and!.
  - unfold exec, AuthenticateUser. unfold_M. simpl.
    repeat (case_match; simpl); done.
  - intros Hfree. unfold eval, AuthenticateUser. unfold_M. simpl.
    destruct (AuthenticateUser_scan (users e) username)
      as [[-> _]|(k & u & Hk & Hu & _)]; [done|].
    destruct Hfree. by exists k, u.
  - intros Hr k u Hk Hu. unfold eval, AuthenticateUser. unfold_M. simpl.
    destruct (AuthenticateUser_scan (users e) username)
      as [[_ Hfree]|(k' & u' & Hk' & Hu' & ->)].
    + destruct Hfree. by exists k, u.
    + assert (k' = k) as ->.
      { eapply (reachable_unique_usernames e Hr); [done..|congruence]. }
      assert (u' = u) as -> by congruence.
      destruct matches; simpl; [|done].
      by rewrite (reachable_users_keyed e Hr k u Hk).
Qed.

Lemma AuthenticateUser_token_witness :
  eval (AuthenticateUser "bob" "battery staple" true) sample = Ok uid_bob
  ∧ eval (AuthenticateUser "bob" "guess" false) sample = Err ErrInvalidPassword
  ∧ eval (AuthenticateUser "dave" "hunter2" true) sample = Err ErrUserNotFound.
Proof.
  assert (users sample !! uid_bob
          = Some (User.mk uid_bob "bob" "$2a$10$bob" 0 false 2)) as Hu
    by (vm_compute; reflexivity).
  assert (reachable sample) as Hr by apply reachable_run_all, reachable_new.
  split_and!.
  - destruct (AuthenticateUser_token sample "bob" "battery staple" true)
      as (_ & _ & Hlogin).
    exact (Hlogin Hr _ _ Hu eq_refl).
  - destruct (AuthenticateUser_token sample "bob" "guess" false)
      as (_ & _ & Hlogin).
    exact (Hlogin Hr _ _ Hu eq_refl).
  - destruct (AuthenticateUser_token sample "dave" "hunter2" true)
      as (_ & Hnone & _).
    apply Hnone. apply username_scan_false. vm_compute. reflexivity.
Defined.

(** X2. Registration and login. After a registration that succeeds, a
    login with the registered username and an accepted password returns the
    identifier the registration gave; a second registration of the same
    username fails with the error of a taken username and changes
    nothing. *)
Theorem RegisterAccount_then_login e username password id now hash :
  ¬ username_taken (users e) username →
  let registered :=
    exec (RegisterAccount username password id now (Hashed hash)) e in
  (∀ password', eval (AuthenticateUser username password' true) registered = Ok id)
  ∧ (∀ password' id' now' hashed',
       RegisterAccount username password' id' now' hashed' registered
       = (Err ErrUsernameExists, registered)).
Proof.
  intros Hfree registered.
  assert (users registered
          = <[id := User.mk id username hash 0 false now]> (users e)) as Hus.
  { unfold registered, exec. by rewrite RegisterAccount_hashed. }
  assert (∀ k u, users registered !! k = Some u → User.Username u = username →
            k = id ∧ u = User.mk id username hash 0 false now) as Honly.
  { intros k u Hk Hu. rewrite Hus, lookup_insert in Hk.
    case_decide; simplify_eq; [done|]. destruct Hfree. by exists k, u. }
  split.
  - intros password'. unfold eval, AuthenticateUser. unfold_M. simpl.
    destruct (AuthenticateUser_scan (users registered) username)
      as [[_ Hnone]|(k & u & Hk & Hu & ->)].
    + destruct Hnone. eexists id, _.
      split; [rewrite Hus; apply lookup_insert_eq|done].
    + by destruct (Honly k u Hk Hu) as [-> ->].
  - intros. apply RegisterAccount_taken. eexists id, _.
    split; [rewrite Hus; apply lookup_insert_eq|done].
Qed.

Lemma RegisterAccount_then_login_witness :
  eval (AuthenticateUser "dave" "hunter2" true)
    (exec (RegisterAccount "dave" "hunter2" uid_dave 9 (Hashed "$2a$10$dave")) sample)
  = Ok uid_dave.
Proof.
  assert (¬ username_taken (users sample) "dave") as Hfree.
  { apply username_scan_false. vm_compute. reflexivity. }
  destruct (RegisterAccount_then_login sample "dave" "hunter2" uid_dave 9
              "$2a$10$dave" Hfree) as (Hlogin & _).
  exact (Hlogin "hunter2").
Defined.

(** ** [CreateSubReddit] *)

(** X3. [CreateSubReddit] fails, storing nothing, when no user has the
    identifier of the creator. Otherwise it stores the subreddit under the
    new identifier with the creator as its only member: [GetSubReddit]
    returns it, the creator can post in it at once, and any other user is
    refused as a non-member. *)
Theorem CreateSubReddit_creator_member e name description creatorID id now :
  (users e !! creatorID = None →
   CreateSubReddit name description creatorID id now e
   = (Err ErrCreatorNotFound, e))
  ∧ (is_Some (users e !! creatorID) →
     let s := SubReddit.mk id name description creatorID 0 0 now
                {[creatorID := true]} in
     let created := set_subreddits (insert id s) e in
     CreateSubReddit name description creatorID id now e = (Ok s, created)
     ∧ eval (GetSubReddit id) created = Ok s
     ∧ (∀ title content pid now',
          eval (CreatePost title content creatorID id pid now') created
          = Ok (Post.mk pid title content creatorID id false "" 0 0 0 now'))
     ∧ (∀ other title content pid now',
          other ≠ creatorID → is_Some (users e !! other) →
          CreatePost title content other id pid now' created
          = (Err ErrNotMember, created))).
Proof.
  split.
  - intros Hu. unfold CreateSubReddit. unfold_M. by rewrite Hu.
  - intros [u Hu] s created.
    assert (subreddits created !! id = Some s) as Hs by apply lookup_insert_eq.
    split_and!.
    + unfold CreateSubReddit. unfold_M. rewrite Hu. simpl.
      unfold SubReddit.set_Members. simpl. by rewrite insert_empty.
    + unfold eval, GetSubReddit. unfold_M. by rewrite Hs.
    + intros title content pid now'. unfold eval.
      erewrite CreatePost_member; [done|exact Hu|exact Hs|].
      eexists. apply lookup_singleton_eq.
    + intros other title content pid now' Hne [u' Hu'].
      eapply CreatePost_not_member; [exact Hu'|exact Hs|].
      intros [b Hb]. simpl in Hb. by rewrite lookup_singleton_ne in Hb.
Qed.

Lemma CreateSubReddit_creator_member_witness :
  eval (CreateSubReddit "rust" "The Rust language" uid_alice sid_rust 8) sample
  = Ok (SubReddit.mk sid_rust "rust" "The Rust language" uid_alice 0 0 8
          {[uid_alice := true]})
  ∧ CreateSubReddit "rust" "The Rust language" uid_dave sid_rust 8 sample
    = (Err ErrCreatorNotFound, sample).
Proof.
  destruct (CreateSubReddit_creator_member sample "rust" "The Rust language"
              uid_alice sid_rust 8) as (_ & Hok).
  destruct (CreateSubReddit_creator_member sample "rust" "The Rust language"
              uid_dave sid_rust 8) as (Hno & _).
  split.
  - assert (is_Some (users sample !! uid_alice)) as Hu
      by (eexists; vm_compute; reflexivity).
    destruct (Hok Hu) as (Hcall & _). unfold eval. by rewrite Hcall.
  - apply Hno. vm_compute. reflexivity.
Defined.

(** ** Joining and leaving *)

Lemma set_subreddits_id e (m : gmap string SubReddit.t) :
  m = subreddits e → set_subreddits (λ _, m) e = e.
Proof. intros ->. by destruct e. Qed.

(** X4. [LeaveSubReddit] undoes [JoinSubReddit]: for an existing user who
    is not in the membership of an existing subreddit, joining and then
    leaving gives the engine back as it was. Leaving without being a member
    changes nothing, leaving twice is leaving once, and after leaving, the
    user, the creator included, is refused by [CreatePost] as a
    non-member. *)
Theorem JoinSubReddit_then_LeaveSubReddit e userID subredditID u s :
  users e !! userID = Some u →
  subreddits e !! subredditID = Some s →
  let left := exec (LeaveSubReddit userID subredditID) e in
  (¬ isMember userID s →
   exec (LeaveSubReddit userID subredditID)
     (exec (JoinSubReddit userID subredditID) e) = e
   ∧ left = e)
  ∧ exec (LeaveSubReddit userID subredditID) left = left
  ∧ (∀ title content pid now,
       CreatePost title content userID subredditID pid now left
       = (Err ErrNotMember, left)).
Proof.
  intros Hu Hs left.
  assert (left = set_subreddits
            (alter (SubReddit.set_Members (delete userID)) subredditID) e)
    as Hleft by (unfold left, exec; by rewrite (LeaveSubReddit_ok _ _ _ _ Hs)).
  assert (subreddits left !! subredditID
          = Some (SubReddit.set_Members (delete userID) s)) as Hs'.
  { rewrite Hleft. simpl. by rewrite lookup_alter_eq, Hs. }
  split_and!.
  - intros Hm.
    assert (SubReddit.Members s !! userID = None) as Hnone.
    { destruct (SubReddit.Members s !! userID) eqn:Hl; [|done].
      destruct Hm. by eexists. }
    split.
    + unfold exec. rewrite (JoinSubReddit_ok _ _ _ _ _ Hu Hs). simpl.
      erewrite LeaveSubReddit_ok; [|simpl; by rewrite lookup_alter_eq, Hs].
      simpl. unfold set_subreddits at 1. simpl.
      rewrite alter_alter_eq. transitivity (set_subreddits (λ _, subreddits e) e);
        [|by apply set_subreddits_id].
      unfold set_subreddits. f_equal. apply map_eq. intros k.
      rewrite lookup_alter. case_decide as Hk; [|done]. subst k. rewrite Hs.
      simpl. f_equal. destruct s. unfold SubReddit.set_Members. simpl in *.
      f_equal. rewrite delete_insert_eq. by apply delete_id.
    + rewrite Hleft. transitivity (set_subreddits (λ _, subreddits e) e);
        [|by apply set_subreddits_id].
      unfold set_subreddits. f_equal. apply map_eq. intros k.
      rewrite lookup_alter. case_decide as Hk; [|done]. subst k. rewrite Hs.
      simpl. f_equal. destruct s. unfold SubReddit.set_Members. simpl in *.
      f_equal. by apply delete_id.
  - unfold exec at 1. rewrite (LeaveSubReddit_ok _ _ _ _ Hs').
    simpl. rewrite Hleft. unfold set_subreddits. simpl. f_equal.
    rewrite alter_alter_eq. apply map_eq. intros k.
    rewrite !lookup_alter. case_decide; [|done].
    destruct (subreddits e !! subredditID) as [s0|]; [|done]. simpl. f_equal.
    unfold SubReddit.set_Members. simpl. f_equal. apply delete_delete_eq.
  - intros title content pid now.
    eapply CreatePost_not_member; [|exact Hs'|].
    + rewrite Hleft. simpl. exact Hu.
    + intros [b Hb]. simpl in Hb. by rewrite lookup_delete_eq in Hb.
Qed.

Lemma JoinSubReddit_then_LeaveSubReddit_witness :
  exec (LeaveSubReddit uid_bob sid_golang)
    (exec (JoinSubReddit uid_bob sid_golang) sample) = sample
  ∧ (CreatePost "bye" "so long" uid_alice sid_golang pid_generics 8
       (exec (LeaveSubReddit uid_alice sid_golang) sample)).1
    = Err ErrNotMember.
Proof.
  assert (users sample !! uid_bob
          = Some (User.mk uid_bob "bob" "$2a$10$bob" 0 false 2)) as Hb
    by (vm_compute; reflexivity).
  assert (users sample !! uid_alice
          = Some (User.mk uid_alice "alice" "$2a$10$alice" 0 false 1)) as Ha
    by (vm_compute; reflexivity).
  assert (subreddits sample !! sid_golang
          = Some (SubReddit.mk sid_golang "golang" "The Go language" uid_alice 0 0 4
                    {[ uid_alice := true ]})) as Hs
    by (vm_compute; reflexivity).
  split.
  - destruct (JoinSubReddit_then_LeaveSubReddit sample uid_bob sid_golang _ _ Hb Hs)
      as (Hinv & _).
    apply Hinv. intros [b Hl]. vm_compute in Hl. discriminate Hl.
  - destruct (JoinSubReddit_then_LeaveSubReddit sample uid_alice sid_golang _ _ Ha Hs)
      as (_ & _ & Hpost).
    by rewrite Hpost.
Defined.

(** ** The order of the checks *)

Ltac decision_table :=
  split_and!;
  try (split; intros; simplify_eq; unfold is_Some in *; naive_solver);
  try (intros; simplify_eq; unfold is_Some in *; naive_solver).

(** X5. [CreatePost] and [JoinSubReddit] decide their result by their
    checks in order. [CreatePost]: the author is missing; else the
    subreddit is missing; else the author is not a member; else it
    succeeds. [JoinSubReddit]: the subreddit is missing; else the user is
    missing; else it succeeds. Each error says which check failed. *)
Theorem CreatePost_JoinSubReddit_checks e :
  (∀ title content authorID subredditID id now,
     let r := eval (CreatePost title content authorID subredditID id now) e in
     (r = Err ErrAuthorNotFound ↔ users e !! authorID = None)
     ∧ (r = Err ErrSubredditNotFound
        ↔ is_Some (users e !! authorID) ∧ subreddits e !! subredditID = None)
     ∧ (r = Err ErrNotMember
        ↔ is_Some (users e !! authorID)
          ∧ ∃ s, subreddits e !! subredditID = Some s ∧ ¬ isMember authorID s)
     ∧ ((∃ post, r = Ok post)
        ↔ is_Some (users e !! authorID)
          ∧ ∃ s, subreddits e !! subredditID = Some s ∧ isMember authorID s))
  ∧ (∀ userID subredditID,
       let r := eval (JoinSubReddit userID subredditID) e in
       (r = Err ErrSubredditNotFound ↔ subreddits e !! subredditID = None)
       ∧ (r = Err ErrUserNotFound
          ↔ is_Some (subreddits e !! subredditID) ∧ users e !! userID = None)
       ∧ (r = Ok tt
          ↔ is_Some (subreddits e !! subredditID) ∧ is_Some (users e !! userID))).
Proof.
  split.
  - intros title content authorID subredditID id now r. subst r.
    unfold eval, CreatePost, isMember. unfold_M. simpl.
    destruct (users e !! authorID) as [a|] eqn:Ha; simpl; [|decision_table].
    destruct (subreddits e !! subredditID) as [s|] eqn:Hs; simpl;
      [|decision_table].
    destruct (SubReddit.Members s !! authorID) as [b|] eqn:Hm; simpl;
      decision_table.
  - intros userID subredditID r. subst r.
    unfold eval, JoinSubReddit. unfold_M. simpl.
    destruct (subreddits e !! subredditID) as [s|] eqn:Hs; simpl;
      [|decision_table].
    destruct (users e !! userID) as [u|] eqn:Hu; simpl; decision_table.
Qed.

(** ** [CreateComment] *)

(** X6. [CreateComment] checks the author, then the post, then the parent,
    and nothing else: it succeeds exactly when the author exists, the post
    exists and the parent, if one is given, is a stored comment, of
    whatever post. On success the comment is stored under the new
    identifier with the given content, author, post and parent and with
    zero votes, and [GetComments] of the post lists it. *)
Theorem CreateComment_checks e content authorID postID parentCommentID id now :
  let call := CreateComment content authorID postID parentCommentID id now in
  let comment :=
    Comment.mk id content authorID postID parentCommentID 0 0 0 now in
  let parent_ok :=
    match parentCommentID with
    | Some parent => is_Some (comments e !! parent)
    | None => True
    end in
  (eval call e = Err ErrAuthorNotFound ↔ users e !! authorID = None)
  ∧ (eval call e = Err ErrPostNotFound
     ↔ is_Some (users e !! authorID) ∧ posts e !! postID = None)
  ∧ (eval call e = Err ErrParentNotFound
     ↔ is_Some (users e !! authorID) ∧ is_Some (posts e !! postID)
       ∧ ¬ parent_ok)
  ∧ (is_Some (users e !! authorID) → is_Some (posts e !! postID) → parent_ok →
     call e = (Ok comment, set_comments (insert id comment) e)
     ∧ ∃ l, eval (GetComments postID) (exec call e) = Ok l ∧ comment ∈ l).
Proof.
  intros call comment parent_ok. subst call parent_ok.
  assert (∃ l, (GetComments postID (set_comments (insert id comment) e)).1 = Ok l
               ∧ comment ∈ l) as Hlist.
  { unfold GetComments. unfold_M. simpl. eexists. split; [done|].
    unfold Range.
    rewrite (range_entries_collect
               (λ c, bool_decide (Comment.PostID c = postID))).
    simpl. apply list_elem_of_fmap. exists (id, comment). split; [done|].
    apply list_elem_of_filter. split; [by apply bool_decide_eq_true|].
    apply elem_of_map_to_list, lookup_insert_eq. }
  unfold eval, exec, CreateComment. unfold_M. simpl.
  destruct (users e !! authorID) as [a|] eqn:Ha; simpl; [|decision_table].
  destruct (posts e !! postID) as [p|] eqn:Hp; simpl; [|decision_table].
  destruct parentCommentID as [parent|]; simpl;
    [destruct (comments e !! parent) as [pc|] eqn:Hpc; simpl|];
    decision_table.
Qed.

Lemma CreateComment_checks_witness :
  CreateComment "me too" uid_bob pid_hello (Some cid_first) cid_reply 8 sample
  = (Ok (Comment.mk cid_reply "me too" uid_bob pid_hello (Some cid_first) 0 0 0 8),
     set_comments
       (insert cid_reply
          (Comment.mk cid_reply "me too" uid_bob pid_hello (Some cid_first) 0 0 0 8))
       sample).
Proof.
  destruct (CreateComment_checks sample "me too" uid_bob pid_hello
              (Some cid_first) cid_reply 8) as (_ & _ & _ & Hok).
  apply Hok; eexists; vm_compute; reflexivity.
Defined.

(** ** Messages *)

Lemma GetUserMessages_filter e userID :
  GetUserMessages userID e
  = (Ok (filter
           (λ km, bool_decide (DirectMessage.ToID km.2 = userID)
                  || bool_decide (DirectMessage.FromID km.2 = userID) = true)
           (map_to_list (messages e))).*2,
     e).
Proof.
  unfold GetUserMessages. unfold_M. unfold Range. f_equal. f_equal.
  by rewrite (range_entries_collect
                (λ m, bool_decide (DirectMessage.ToID m = userID)
                      || bool_decide (DirectMessage.FromID m = userID))).
Qed.

(** X7. [GetUserMessages] and [GetMessage] agree: the list of a user holds
    exactly the stored messages that [GetMessage] hands to that user, that
    is, those the user sent or received, and no message of other users.
    [GetUserMessages] never fails and changes nothing. *)
Theorem GetUserMessages_GetMessage e userID :
  ∃ l,
    GetUserMessages userID e = (Ok l, e)
    ∧ (∀ msg, msg ∈ l
         ↔ ∃ messageID, eval (GetMessage userID messageID) e = Ok msg)
    ∧ (∀ msg, msg ∈ l
         ↔ (∃ messageID, messages e !! messageID = Some msg)
           ∧ (DirectMessage.FromID msg = userID
              ∨ DirectMessage.ToID msg = userID)).
Proof.
  eexists. split; [apply GetUserMessages_filter|].
  assert (∀ msg,
    msg ∈ (filter
      (λ km, bool_decide (DirectMessage.ToID km.2 = userID)
             || bool_decide (DirectMessage.FromID km.2 = userID) = true)
      (map_to_list (messages e))).*2
    ↔ (∃ messageID, messages e !! messageID = Some msg)
      ∧ (DirectMessage.FromID msg = userID ∨ DirectMessage.ToID msg = userID))
    as Hlist.
  { intros msg. rewrite list_elem_of_fmap. split.
    - intros ([k m] & -> & Hin). apply list_elem_of_filter in Hin as [Hp Hin].
      apply elem_of_map_to_list in Hin. simpl in *.
      split; [by exists k|].
      apply orb_true_iff in Hp as [Hp|Hp]; apply bool_decide_eq_true in Hp; auto.
    - intros [[k Hk] Hor]. exists (k, msg). split; [done|].
      apply list_elem_of_filter. split; [|by apply elem_of_map_to_list].
      simpl. apply orb_true_iff.
      destruct Hor as [H|H]; [right|left]; by apply bool_decide_eq_true. }
  split; [|exact Hlist].
  intros msg. rewrite Hlist. split.
  - intros [[k Hk] Hor]. exists k.
    unfold eval, GetMessage. unfold_M. rewrite Hk. simpl.
    destruct Hor as [H|H]; rewrite (bool_decide_eq_true_2 _ H); simpl;
      [done|by rewrite andb_false_r].
  - intros [k Hget]. unfold eval, GetMessage in Hget. unfold_M. simpl in Hget.
    destruct (messages e !! k) as [m|] eqn:Hk; [|done]. simpl in Hget.
    destruct (decide (DirectMessage.FromID m = userID)) as [Hf|Hf],
      (decide (DirectMessage.ToID m = userID)) as [Ht|Ht];
      rewrite ?(bool_decide_eq_true_2 _ Hf), ?(bool_decide_eq_false_2 _ Hf),
        ?(bool_decide_eq_true_2 _ Ht), ?(bool_decide_eq_false_2 _ Ht) in Hget;
      simpl in Hget; simplify_eq; (split; [by exists k|auto]).
Qed.

(** X8. [SendDirectMessage] checks the sender, then the recipient, and
    nothing else (a user may write to themselves). On success the message
    is stored unread under the new identifier; [GetMessage] then returns it
    to the sender and to the recipient and refuses it to every other
    user. *)
Theorem SendDirectMessage_delivery e fromID toID content id now :
  let call := SendDirectMessage fromID toID content id now in
  let msg := DirectMessage.mk id fromID toID content false now in
  let sent := set_messages (insert id msg) e in
  (eval call e = Err ErrSenderNotFound ↔ users e !! fromID = None)
  ∧ (eval call e = Err ErrRecipientNotFound
     ↔ is_Some (users e !! fromID) ∧ users e !! toID = None)
  ∧ (is_Some (users e !! fromID) → is_Some (users e !! toID) →
     call e = (Ok msg, sent)
     ∧ eval (GetMessage fromID id) sent = Ok msg
     ∧ eval (GetMessage toID id) sent = Ok msg
     ∧ (∀ other, other ≠ fromID → other ≠ toID →
          eval (GetMessage other id) sent = Err ErrUnauthorized)).
Proof.
  intros call msg sent. subst call.
  assert (∀ userID,
    eval (GetMessage userID id) sent
    = if negb (bool_decide (fromID = userID)) && negb (bool_decide (toID = userID))
      then Err ErrUnauthorized else Ok msg) as Hget.
  { intros userID. unfold eval, GetMessage, sent. unfold_M. simpl.
    rewrite lookup_insert_eq. simpl. by case_match. }
  unfold eval at 1 2, SendDirectMessage. unfold_M. simpl.
  destruct (users e !! fromID) as [f|] eqn:Hf; simpl; [|decision_table].
  destruct (users e !! toID) as [t|] eqn:Ht; simpl; [|decision_table].
  split_and!; [done|decision_table|]. intros _ _. split_and!.
  - done.
  - rewrite Hget. by rewrite bool_decide_eq_true_2.
  - rewrite Hget. rewrite (bool_decide_eq_true_2 (toID = toID)) by done.
    by rewrite andb_false_r.
  - intros other Hnf Hnt. rewrite Hget.
    by rewrite !bool_decide_eq_false_2 by done.
Qed.

Lemma SendDirectMessage_delivery_witness :
  let msg := DirectMessage.mk pid_generics uid_carol uid_carol "note to self" false 8 in
  SendDirectMessage uid_carol uid_carol "note to self" pid_generics 8 sample
  = (Ok msg, set_messages (insert pid_generics msg) sample).
Proof.
  destruct (SendDirectMessage_delivery sample uid_carol uid_carol "note to self"
              pid_generics 8) as (_ & _ & Hok).
  apply Hok; eexists; vm_compute; reflexivity.
Defined.

(** ** Listings *)

Lemma ListPosts_filter e subredditID :
  ListPosts subredditID e
  = (Ok (filter (λ kp, bool_decide (Post.SubRedditID kp.2 = subredditID) = true)
           (map_to_list (posts e))).*2,
     e).
Proof.
  unfold ListPosts. unfold_M. unfold Range. f_equal. f_equal.
  by rewrite (range_entries_collect
                (λ p, bool_decide (Post.SubRedditID p = subredditID))).
Qed.

Lemma ListPosts_elem e subredditID l p :
  eval (ListPosts subredditID) e = Ok l →
  p ∈ l ↔ (∃ k, posts e !! k = Some p) ∧ Post.SubRedditID p = subredditID.
Proof.
  unfold eval. rewrite ListPosts_filter. simpl. intros [= <-].
  rewrite list_elem_of_fmap. split.
  - intros ([k p'] & -> & Hin). apply list_elem_of_filter in Hin as [Hp Hin].
    apply elem_of_map_to_list in Hin. simpl in *.
    split; [by exists k|]. by apply bool_decide_eq_true in Hp.
  - intros [[k Hk] Hs]. exists (k, p). split; [done|].
    apply list_elem_of_filter. split; [|by apply elem_of_map_to_list].
    simpl. by apply bool_decide_eq_true.
Qed.

Lemma GetComments_filter e postID :
  GetComments postID e
  = (Ok (filter (λ kc, bool_decide (Comment.PostID kc.2 = postID) = true)
           (map_to_list (comments e))).*2,
     e).
Proof.
  unfold GetComments. unfold_M. unfold Range. f_equal. f_equal.
  by rewrite (range_entries_collect
                (λ c, bool_decide (Comment.PostID c = postID))).
Qed.

Lemma range_entries_all {K V} (l : list (K * V)) (acc : list V) :
  range_entries (λ _ v acc, (acc ++ [v], true)) l acc = acc ++ l.*2.
Proof.
  revert acc. induction l as [|[k v] l IH]; intros acc; simpl.
  - by rewrite app_nil_r.
  - rewrite IH. by rewrite <- app_assoc.
Qed.

Lemma ListSubreddits_all e :
  ListSubreddits e = (Ok (map_to_list (subreddits e)).*2, e).
Proof.
  unfold ListSubreddits. unfold_M. unfold Range. by rewrite range_entries_all.
Qed.

(** X9. The listings never fail and change nothing. [ListPosts] returns
    the stored posts with the given [SubRedditID], [GetComments] the stored
    comments with the given [PostID], replies included, and
    [ListSubreddits] every stored subreddit, as many as the store holds;
    each entry of the store is listed once. *)
Theorem listings_exact e :
  (∀ subredditID, ∃ entries : list (string * Post.t),
     ListPosts subredditID e = (Ok entries.*2, e)
     ∧ NoDup entries
     ∧ ∀ k p, (k, p) ∈ entries
         ↔ posts e !! k = Some p ∧ Post.SubRedditID p = subredditID)
  ∧ (∀ postID, ∃ entries : list (string * Comment.t),
       GetComments postID e = (Ok entries.*2, e)
       ∧ NoDup entries
       ∧ ∀ k c, (k, c) ∈ entries
           ↔ comments e !! k = Some c ∧ Comment.PostID c = postID)
  ∧ (∃ entries : list (string * SubReddit.t),
       ListSubreddits e = (Ok entries.*2, e)
       ∧ NoDup entries
       ∧ length entries.*2 = size (subreddits e)
       ∧ ∀ k s, (k, s) ∈ entries ↔ subreddits e !! k = Some s).
Proof.
  split_and!.
  - intros subredditID. eexists. split_and!; [apply ListPosts_filter| |].
    + apply NoDup_filter, NoDup_map_to_list.
    + intros k p. rewrite list_elem_of_filter, elem_of_map_to_list. simpl.
      rewrite bool_decide_eq_true. tauto.
  - intros postID. eexists. split_and!; [apply GetComments_filter| |].
    + apply NoDup_filter, NoDup_map_to_list.
    + intros k c. rewrite list_elem_of_filter, elem_of_map_to_list. simpl.
      rewrite bool_decide_eq_true. tauto.
  - eexists. split_and!; [apply ListSubreddits_all| | |].
    + apply NoDup_map_to_list.
    + by rewrite length_fmap, length_map_to_list.
    + intros k s. apply elem_of_map_to_list.
Qed.

(** X10. The feed of a user is the union of the listings of the
    subreddits the user is a member of: a post is in [GetFeed] of the user
    exactly when it is in [ListPosts] of the identifier of some stored
    subreddit that has the user in its membership. *)
Theorem GetFeed_union_of_ListPosts e userID feed :
  eval (GetFeed userID) e = Ok feed →
  ∀ p, p ∈ feed
    ↔ ∃ k s l, subreddits e !! k = Some s ∧ isMember userID s
               ∧ eval (ListPosts (SubReddit.ID s)) e = Ok l ∧ p ∈ l.
Proof.
  unfold eval at 1. rewrite GetFeed_filter. simpl. intros [= <-] p.
  rewrite list_elem_of_fmap. split.
  - intros ([kp p'] & -> & Hin). apply list_elem_of_filter in Hin as [Hsub Hin].
    apply elem_of_map_to_list in Hin. simpl in *.
    apply userSubscriptions_spec in Hsub as (k & s & Hk & Hm & Hid).
    eexists k, s, _. split_and!; [done|done|by unfold eval; rewrite ListPosts_filter|].
    simpl. apply list_elem_of_fmap. exists (kp, p'). split; [done|].
    apply list_elem_of_filter. split; [|by apply elem_of_map_to_list].
    simpl. by apply bool_decide_eq_true.
  - intros (k & s & l & Hk & Hm & Hl & Hin).
    apply (ListPosts_elem _ _ _ _ Hl) in Hin as [[kp Hkp] Hid].
    exists (kp, p). split; [done|].
    apply list_elem_of_filter. split; [|by apply elem_of_map_to_list].
    simpl. apply userSubscriptions_spec. by exists k, s.
Qed.

Lemma GetFeed_union_of_ListPosts_witness :
  ∃ feed, eval (GetFeed uid_alice) sample = Ok feed
  ∧ (∀ p, p ∈ feed
       ↔ ∃ k s l, subreddits sample !! k = Some s ∧ isMember uid_alice s
                  ∧ eval (ListPosts (SubReddit.ID s)) sample = Ok l ∧ p ∈ l).
Proof.
  eexists. split; [unfold eval; rewrite GetFeed_filter; reflexivity|].
  apply (GetFeed_union_of_ListPosts sample uid_alice).
  unfold eval. rewrite GetFeed_filter. reflexivity.
Defined.

(** ** More on [Vote] *)

(** X11. [Vote] checks its target and nothing else: it fails exactly when
    the identifier is neither a post nor a comment, with the error of a
    target not found, and succeeds otherwise. The user is not looked up: a
    first vote under an identifier that no user has is counted and
    recorded like any other. *)
Theorem Vote_checks_target_only e userID targetID isUpvote now :
  let call := Vote userID targetID isUpvote now in
  (eval call e = Err ErrTargetNotFound
   ↔ posts e !! targetID = None ∧ comments e !! targetID = None)
  ∧ (eval call e = Ok tt
     ↔ is_Some (posts e !! targetID) ∨ is_Some (comments e !! targetID))
  ∧ (∀ err, eval call e = Err err → err = ErrTargetNotFound)
  ∧ (users e !! userID = None →
     votes e !! voteID userID targetID = None →
     is_Some (posts e !! targetID) ∨ is_Some (comments e !! targetID) →
     votes (exec call e) !! voteID userID targetID
     = Some (Vote.mk "" userID targetID isUpvote now)).
Proof.
  intros call. subst call.
  destruct (posts e !! targetID) as [p|] eqn:Hp.
  - assert (eval (Vote userID targetID isUpvote now) e = Ok tt) as Hok.
    { unfold eval. destruct (votes e !! voteID userID targetID) as [v|] eqn:Hv.
      - destruct (bool_decide (Vote.IsUpvote v = isUpvote)) eqn:Hb.
        + apply bool_decide_eq_true in Hb.
          erewrite Vote_repeat; [done| |done|done]. left. rewrite Hp. by eexists.
        + apply bool_decide_eq_false in Hb.
          erewrite Vote_flip_post; [done|done|done|].
          by destruct (Vote.IsUpvote v), isUpvote.
      - by erewrite Vote_first_post. }
    rewrite Hok. split_and!.
    + split; [done|]. by intros [? _].
    + split; [|done]. intros _. left. by eexists.
    + done.
    + intros _ Hv _. unfold exec. erewrite Vote_first_post; [|done|done].
      simpl. apply lookup_insert_eq.
  - destruct (comments e !! targetID) as [c|] eqn:Hc.
    + assert (eval (Vote userID targetID isUpvote now) e = Ok tt) as Hok.
      { unfold eval. destruct (votes e !! voteID userID targetID) as [v|] eqn:Hv.
        - destruct (bool_decide (Vote.IsUpvote v = isUpvote)) eqn:Hb.
          + apply bool_decide_eq_true in Hb.
            erewrite Vote_repeat; [done| |done|done]. right. rewrite Hc. by eexists.
          + apply bool_decide_eq_false in Hb.
            erewrite Vote_flip_comment; [done|done|done|done|].
            by destruct (Vote.IsUpvote v), isUpvote.
        - by erewrite Vote_first_comment. }
      rewrite Hok. split_and!.
      * split; [done|]. by intros [_ ?].
      * split; [|done]. intros _. right. by eexists.
      * done.
      * intros _ Hv _. unfold exec. erewrite Vote_first_comment; [|done|done|done].
        simpl. apply lookup_insert_eq.
    + unfold eval. rewrite Vote_target_not_found by done. simpl.
      split_and!.
      * done.
      * split; [done|]. by intros [[? ?]|[? ?]].
      * by intros err [= <-].
      * by intros _ _ [[? ?]|[? ?]].
Qed.

Lemma Vote_checks_target_only_witness :
  users sample !! uid_dave = None
  ∧ votes (exec (Vote uid_dave pid_hello false 8) sample) !! voteID uid_dave pid_hello
    = Some (Vote.mk "" uid_dave pid_hello false 8).
Proof.
  assert (users sample !! uid_dave = None) as Hu by (vm_compute; reflexivity).
  split; [exact Hu|].
  destruct (Vote_checks_target_only sample uid_dave pid_hello false 8)
    as (_ & _ & _ & Hrec).
  apply Hrec; [exact Hu|vm_compute; reflexivity|].
  left. eexists. vm_compute. reflexivity.
Defined.

(** The first vote of a user on a target: the counter of its polarity
    grows by one and the vote is recorded under its key; the other votes
    stay. *)
Lemma Vote_first_counters e userID targetID isUpvote now u d :
  votes e !! voteID userID targetID = None →
  counters e targetID = Some (u, d) →
  let first := exec (Vote userID targetID isUpvote now) e in
  counters first targetID = Some (if isUpvote then (incr u, d) else (u, incr d))
  ∧ votes first
    = <[voteID userID targetID := Vote.mk "" userID targetID isUpvote now]> (votes e).
Proof.
  intros Hv Hc first. unfold counters in Hc. subst first. unfold exec.
  destruct (posts e !! targetID) as [p|] eqn:Hp;
    [|destruct (comments e !! targetID) as [c|] eqn:Hcm; [|done]];
    simplify_eq.
  - rewrite (Vote_first_post _ _ _ _ _ _ Hp Hv). simpl. split; [|done].
    unfold counters. simpl. rewrite lookup_alter_eq, Hp. simpl.
    by destruct isUpvote.
  - rewrite (Vote_first_comment _ _ _ _ _ _ Hp Hcm Hv). simpl. split; [|done].
    unfold counters. simpl. rewrite Hp, lookup_alter_eq, Hcm. simpl.
    by destruct isUpvote.
Qed.

(** X12. The six transitions of the votes of one user on one target. A
    first vote counts in the counter of its polarity. A second vote of the
    same polarity changes nothing at all. A second vote of the other
    polarity moves one unit from the counter of the first polarity to the
    other counter and turns the recorded vote, which keeps the time of the
    first vote. *)
Theorem Vote_transitions e userID targetID isUpvote now1 now2 u d :
  votes e !! voteID userID targetID = None →
  counters e targetID = Some (u, d) →
  let first := exec (Vote userID targetID isUpvote now1) e in
  let flipped := exec (Vote userID targetID (negb isUpvote) now2) first in
  counters first targetID = Some (if isUpvote then (incr u, d) else (u, incr d))
  ∧ votes first !! voteID userID targetID
    = Some (Vote.mk "" userID targetID isUpvote now1)
  ∧ Vote userID targetID isUpvote now2 first = (Ok tt, first)
  ∧ counters flipped targetID
    = Some (if isUpvote then (decr (incr u), incr d)
            else (incr u, decr (incr d)))
  ∧ votes flipped !! voteID userID targetID
    = Some (Vote.mk "" userID targetID (negb isUpvote) now1).
Proof.
  intros Hv Hc first flipped.
  destruct (Vote_first_counters e userID targetID isUpvote now1 u d Hv Hc)
    as [Hc1 Hv1]. fold first in Hc1, Hv1.
  assert (votes first !! voteID userID targetID
          = Some (Vote.mk "" userID targetID isUpvote now1)) as Hv1'
    by (rewrite Hv1; apply lookup_insert_eq).
  assert (is_Some (posts first !! targetID) ∨ is_Some (comments first !! targetID))
    as Htarget.
  { unfold counters in Hc1. destruct (posts first !! targetID); [left; by eexists|].
    destruct (comments first !! targetID); [right; by eexists|done]. }
  split_and!; [done|done|by eapply Vote_repeat| |].
  - unfold counters in Hc1. unfold flipped, exec, counters.
    destruct (posts first !! targetID) as [p|] eqn:Hp.
    + injection Hc1 as Hup.
      erewrite Vote_flip_post; [|done|done|by rewrite negb_involutive].
      simpl. rewrite lookup_alter_eq, Hp. simpl.
      destruct isUpvote; simpl in *; injection Hup as Hup Hdown;
        by rewrite Hup, Hdown.
    + destruct (comments first !! targetID) as [c|] eqn:Hcm; [|done].
      injection Hc1 as Hup.
      erewrite Vote_flip_comment; [|done|done|done|by rewrite negb_involutive].
      simpl. rewrite Hp, lookup_alter_eq, Hcm. simpl.
      destruct isUpvote; simpl in *; injection Hup as Hup Hdown;
        by rewrite Hup, Hdown.
  - unfold flipped, exec.
    destruct Htarget as [[p Hp]|[c Hcm]].
    + erewrite Vote_flip_post; [|done|done|by rewrite negb_involutive].
      simpl. by rewrite lookup_alter_eq, Hv1'.
    + destruct (posts first !! targetID) as [p|] eqn:Hp.
      * erewrite Vote_flip_post; [|done|done|by rewrite negb_involutive].
        simpl. by rewrite lookup_alter_eq, Hv1'.
      * erewrite Vote_flip_comment; [|done|done|done|by rewrite negb_involutive].
        simpl. by rewrite lookup_alter_eq, Hv1'.
Qed.

Lemma Vote_transitions_witness :
  let first := exec (Vote uid_bob cid_first false 8) sample in
  counters first cid_first = Some (0, 1)
  ∧ counters (exec (Vote uid_bob cid_first true 9) first) cid_first = Some (1, 0).
Proof.
  assert (votes sample !! voteID uid_bob cid_first = None) as Hv
    by (vm_compute; reflexivity).
  assert (counters sample cid_first = Some (0, 0)) as Hc
    by (vm_compute; reflexivity).
  destruct (Vote_transitions sample uid_bob cid_first false 8 9 0 0 Hv Hc)
    as (H1 & _ & _ & H2 & _).
  split; [exact H1|exact H2].
Defined.

Lemma incr_decr z : int64_range z → incr (decr z) = z.
Proof.
  unfold int64_range, decr, incr, wrap64. intros Hz.
  replace ((z - 1 + 2 ^ 63) mod 2 ^ 64 - 2 ^ 63 + 1 + 2 ^ 63)
    with ((z - 1 + 2 ^ 63) mod 2 ^ 64 + 1) by lia.
  destruct (Z.eq_dec z (- 2 ^ 63)) as [->|Hne].
  - reflexivity.
  - rewrite (Z.mod_small (z - 1 + 2 ^ 63)) by lia.
    rewrite Z.mod_small; lia.
Qed.

Lemma set_posts_votes_id e (ps : gmap string Post.t) (vs : gmap string Vote.t) :
  ps = posts e → vs = votes e →
  set_votes (λ _, vs) (set_posts (λ _, ps) e) = e.
Proof. intros -> ->. by destruct e. Qed.

Lemma set_comments_votes_id e (cs : gmap string Comment.t) (vs : gmap string Vote.t) :
  cs = comments e → vs = votes e →
  set_votes (λ _, vs) (set_comments (λ _, cs) e) = e.
Proof. intros -> ->. by destruct e. Qed.

(** X13. Changing one's mind twice costs nothing: when a user has a vote
    on a target whose counters are in the range of [int64], a vote of the
    other polarity followed by a vote of the first polarity gives back the
    very engine of before, counters and recorded vote included. *)
Theorem Vote_flip_twice e userID targetID now1 now2 v u d :
  votes e !! voteID userID targetID = Some v →
  counters e targetID = Some (u, d) →
  int64_range u → int64_range d →
  exec (Vote userID targetID (Vote.IsUpvote v) now2)
    (exec (Vote userID targetID (negb (Vote.IsUpvote v)) now1) e) = e.
Proof.
  intros Hv Hc Hu Hd. unfold counters in Hc. unfold exec.
  assert (∀ v', votes e !! voteID userID targetID = Some v' →
            Vote.set_IsUpvote (Vote.IsUpvote v)
              (Vote.set_IsUpvote (negb (Vote.IsUpvote v)) v') = v') as Hvote.
  { intros v' Hv'. assert (v' = v) as -> by congruence. by destruct v. }
  destruct (posts e !! targetID) as [p|] eqn:Hp;
    [|destruct (comments e !! targetID) as [c|] eqn:Hcm; [|done]];
    simplify_eq.
  - erewrite (Vote_flip_post e); [|done|done|by rewrite negb_involutive].
    simpl. erewrite Vote_flip_post;
      [|simpl; by rewrite lookup_alter_eq, Hp
       |simpl; by rewrite lookup_alter_eq, Hv|done].
    simpl. unfold set_votes at 1, set_posts at 1. simpl.
    rewrite !alter_alter_eq.
    transitivity (set_votes (λ _, votes e) (set_posts (λ _, posts e) e));
      [|by apply set_posts_votes_id].
    unfold set_votes, set_posts. simpl. f_equal.
    + apply alter_id. intros p' Hp'. assert (p' = p) as -> by congruence.
      simpl. destruct p. unfold flip_vote_post. simpl in *.
      destruct (Vote.IsUpvote v); simpl;
        unfold Post.set_Upvotes, Post.set_Downvotes; simpl;
        by rewrite ?decr_incr, ?incr_decr.
    + by apply alter_id.
  - erewrite (Vote_flip_comment e); [|done|done|done|by rewrite negb_involutive].
    simpl. erewrite Vote_flip_comment;
      [|done|simpl; by rewrite lookup_alter_eq, Hcm
       |simpl; by rewrite lookup_alter_eq, Hv|done].
    simpl. unfold set_votes at 1, set_comments at 1. simpl.
    rewrite !alter_alter_eq.
    transitivity (set_votes (λ _, votes e) (set_comments (λ _, comments e) e));
      [|by apply set_comments_votes_id].
    unfold set_votes, set_comments. simpl. f_equal.
    + apply alter_id. intros c' Hc'. assert (c' = c) as -> by congruence.
      simpl. destruct c. unfold flip_vote_comment. simpl in *.
      destruct (Vote.IsUpvote v); simpl;
        unfold Comment.set_Upvotes, Comment.set_Downvotes; simpl;
        by rewrite ?decr_incr, ?incr_decr.
    + by apply alter_id.
Qed.

Lemma Vote_flip_twice_witness :
  let voted := exec (Vote uid_bob pid_hello true 8) sample in
  exec (Vote uid_bob pid_hello true 10)
    (exec (Vote uid_bob pid_hello false 9) voted) = voted.
Proof.
  intros voted.
  assert (votes voted !! voteID uid_bob pid_hello
          = Some (Vote.mk "" uid_bob pid_hello true 8)) as Hv
    by (vm_compute; reflexivity).
  assert (counters voted pid_hello = Some (1, 0)) as Hc
    by (vm_compute; reflexivity).
  apply (Vote_flip_twice voted uid_bob pid_hello 9 10 _ 1 0 Hv Hc);
    unfold int64_range; lia.
Defined.

(** The keys of the votes of two users on one target differ. *)
Lemma string_app_length (s t : string) :
  String.length (s +:+ t) = (String.length s + String.length t)%nat.
Proof. induction s as [|a s IH]; simpl; [done|]. by rewrite IH. Qed.

Lemma string_app_inj_r (s1 s2 t : string) : s1 +:+ t = s2 +:+ t → s1 = s2.
Proof.
  revert s2. induction s1 as [|a s1 IH]; intros [|b s2] Heq.
  - done.
  - apply (f_equal String.length) in Heq.
    rewrite !string_app_length in Heq. simpl in Heq. lia.
  - apply (f_equal String.length) in Heq.
    rewrite !string_app_length in Heq. simpl in Heq. lia.
  - change (String a (s1 +:+ t) = String b (s2 +:+ t)) in Heq.
    injection Heq as -> Heq. f_equal. by apply IH.
Qed.

Lemma voteID_inj_user userID1 userID2 targetID :
  voteID userID1 targetID = voteID userID2 targetID → userID1 = userID2.
Proof. unfold voteID. apply string_app_inj_r. Qed.

(** X14. Every user counts once: when users, all different, none with a
    vote on the target yet, upvote one target one after the other, the
    upvotes of the target grow by the number of users and its downvotes
    stay, as long as the count fits [int64]. *)
Theorem Vote_distinct_users userIDs targetID now e u d :
  NoDup userIDs →
  (∀ userID, userID ∈ userIDs → votes e !! voteID userID targetID = None) →
  counters e targetID = Some (u, d) →
  0 <= u → u + Z.of_nat (length userIDs) < 2 ^ 63 →
  counters (upvote_all userIDs targetID now e) targetID
  = Some (u + Z.of_nat (length userIDs), d).
Proof.
  intros Hnd. revert e u. unfold upvote_all.
  induction Hnd as [|userID userIDs Hnotin Hnd IH];
    intros e u Hnone Hc H0 Hmax.
  - simpl. by rewrite Z.add_0_r.
  - rewrite length_cons, Nat2Z.inj_succ in Hmax |- *. cbn [foldl].
    destruct (Vote_first_counters e userID targetID true now u d) as [Hc1 Hv1];
      [apply Hnone; left|done|].
    rewrite incr_small in Hc1 by (unfold int64_range; lia).
    rewrite (IH _ (u + 1)); [|  |done|lia|lia].
    + f_equal. f_equal. lia.
    + intros userID' Hin. rewrite Hv1, lookup_insert_ne; [apply Hnone; by right|].
      intros Heq%voteID_inj_user. by subst.
Qed.

Lemma Vote_distinct_users_witness :
  counters (upvote_all [uid_alice; uid_bob; uid_carol] pid_hello 8 sample) pid_hello
  = Some (3, 0).
Proof.
  assert (counters sample pid_hello = Some (0, 0)) as Hc
    by (vm_compute; reflexivity).
  apply (Vote_distinct_users [uid_alice; uid_bob; uid_carol] pid_hello 8 sample 0 0);
    [| |exact Hc|lia|simpl; lia].
  - repeat (apply NoDup_cons; split;
              [rewrite ?elem_of_cons, elem_of_nil; intros Hin;
               repeat destruct Hin as [Hin|Hin]; try discriminate Hin; done|]).
    apply NoDup_nil. done.
  - intros userID Hin.
    repeat (apply elem_of_cons in Hin as [->|Hin]; [vm_compute; reflexivity|]).
    by apply elem_of_nil in Hin.
Defined.

(** ** The engine as a whole *)

Lemma run_read_only o e : read_only o = true → (run o e).2 = e.
Proof.
  destruct o; simpl; try discriminate; intros _;
    unfold_ops; unfold_M; simpl;
    repeat (case_match; simplify_eq; simpl in * ); done.
Qed.

(** X15. The calls that only read leave the engine as it is, whether they
    succeed or fail: [Start], [AuthenticateUser], [GetSubReddit],
    [ListSubreddits], [GetPost], [ListPosts], [GetComments], [GetFeed],
    [GetMessage], [GetUserPublicKey] and [GetUserMessages]. *)
Theorem read_only_calls o e : read_only o = true → (run o e).2 = e.
Proof. apply run_read_only. Qed.

Lemma read_only_calls_witness :
  (run (OpGetFeed uid_alice) sample).2 = sample
  ∧ (run (OpGetMessage uid_carol mid_hi) sample).2 = sample.
Proof.
  split; by apply read_only_calls.
Defined.

(** What each call that writes does to the engine. *)
Lemma RegisterAccount_cases e username password id now hashed :
  exec (RegisterAccount username password id now hashed) e = e
  ∨ ∃ hash,
      exec (RegisterAccount username password id now hashed) e
      = set_users (insert id (User.mk id username hash 0 false now)) e.
Proof.
  unfold exec. destruct (username_taken_dec (users e) username) as [Ht|Ht].
  - left. by rewrite RegisterAccount_taken.
  - destruct hashed as [hash|msg].
    + right. exists hash. by rewrite RegisterAccount_hashed.
    + left. by rewrite RegisterAccount_hash_error.
Qed.

Lemma CreateSubReddit_cases e name description creatorID id now :
  exec (CreateSubReddit name description creatorID id now) e = e
  ∨ (is_Some (users e !! creatorID)
     ∧ exec (CreateSubReddit name description creatorID id now) e
       = set_subreddits
           (insert id (SubReddit.mk id name description creatorID 0 0 now
                         {[creatorID := true]})) e).
Proof.
  unfold exec, CreateSubReddit. unfold_M. simpl.
  destruct (users e !! creatorID) as [u|] eqn:Hu; simpl; [|by left].
  right. split; [by eexists|]. unfold SubReddit.set_Members. simpl.
  by rewrite insert_empty.
Qed.

Lemma JoinSubReddit_cases e userID subredditID :
  exec (JoinSubReddit userID subredditID) e = e
  ∨ (is_Some (users e !! userID)
     ∧ exec (JoinSubReddit userID subredditID) e
       = set_subreddits
           (alter (SubReddit.set_Members (insert userID true)) subredditID) e).
Proof.
  unfold exec, JoinSubReddit. unfold_M. simpl.
  destruct (subreddits e !! subredditID); simpl; [|by left].
  destruct (users e !! userID) eqn:Hu; simpl; [|by left].
  right. split; [by eexists|done].
Qed.

Lemma LeaveSubReddit_cases e userID subredditID :
  exec (LeaveSubReddit userID subredditID) e = e
  ∨ exec (LeaveSubReddit userID subredditID) e
    = set_subreddits
        (alter (SubReddit.set_Members (delete userID)) subredditID) e.
Proof.
  unfold exec, LeaveSubReddit. unfold_M. simpl.
  destruct (subreddits e !! subredditID); simpl; [by right|by left].
Qed.

Lemma CreatePost_cases e title content authorID subredditID id now :
  exec (CreatePost title content authorID subredditID id now) e = e
  ∨ (is_Some (users e !! authorID) ∧ is_Some (subreddits e !! subredditID)
     ∧ exec (CreatePost title content authorID subredditID id now) e
       = set_posts
           (insert id (Post.mk id title content authorID subredditID
                         false "" 0 0 0 now)) e).
Proof.
  unfold exec, CreatePost. unfold_M. simpl.
  destruct (users e !! authorID) eqn:Hu; simpl; [|by left].
  destruct (subreddits e !! subredditID) as [s|] eqn:Hs; simpl; [|by left].
  destruct (SubReddit.Members s !! authorID); simpl; [|by left].
  right. split_and!; [by eexists..|done].
Qed.

Lemma CreateComment_cases e content authorID postID parentCommentID id now :
  exec (CreateComment content authorID postID parentCommentID id now) e = e
  ∨ (is_Some (users e !! authorID) ∧ is_Some (posts e !! postID)
     ∧ (∀ parent, parentCommentID = Some parent → is_Some (comments e !! parent))
     ∧ exec (CreateComment content authorID postID parentCommentID id now) e
       = set_comments
           (insert id (Comment.mk id content authorID postID parentCommentID
                         0 0 0 now)) e).
Proof.
  unfold exec, CreateComment. unfold_M. simpl.
  destruct (users e !! authorID) eqn:Hu; simpl; [|by left].
  destruct (posts e !! postID) eqn:Hp; simpl; [|by left].
  destruct parentCommentID as [parent|]; simpl.
  - destruct (comments e !! parent) eqn:Hc; simpl; [|by left].
    right. split_and!; [by eexists..| |done].
    intros ? [= <-]. rewrite Hc. by eexists.
  - right. split_and!; [by eexists..| |done]. by intros.
Qed.

Lemma SendDirectMessage_cases e fromID toID content id now :
  exec (SendDirectMessage fromID toID content id now) e = e
  ∨ (is_Some (users e !! fromID) ∧ is_Some (users e !! toID)
     ∧ exec (SendDirectMessage fromID toID content id now) e
       = set_messages
           (insert id (DirectMessage.mk id fromID toID content false now)) e).
Proof.
  unfold exec, SendDirectMessage. unfold_M. simpl.
  destruct (users e !! fromID) eqn:Hf; simpl; [|by left].
  destruct (users e !! toID) eqn:Ht; simpl; [|by left].
  right. split_and!; [by eexists..|done].
Qed.

(** [Vote] rewrites counters of its target and one entry of the votes. *)
Lemma Vote_cases e userID targetID isUpvote now :
  ∃ fp fc gv,
    exec (Vote userID targetID isUpvote now) e
    = set_votes gv (set_comments (alter fc targetID)
                      (set_posts (alter fp targetID) e))
    ∧ (∀ p, fp p = Post.set_Upvotes (λ _, Post.Upvotes (fp p))
                     (Post.set_Downvotes (λ _, Post.Downvotes (fp p)) p))
    ∧ (∀ c, fc c = Comment.set_Upvotes (λ _, Comment.Upvotes (fc c))
                     (Comment.set_Downvotes (λ _, Comment.Downvotes (fc c)) c))
    ∧ (gv = id
       ∨ (gv = insert (voteID userID targetID)
                 (Vote.mk "" userID targetID isUpvote now)
          ∧ (is_Some (posts e !! targetID) ∨ is_Some (comments e !! targetID)))
       ∨ gv = alter (Vote.set_IsUpvote isUpvote) (voteID userID targetID)).
Proof.
  assert (∀ m : gmap string Post.t, alter id targetID m = m) as Hidp
    by (intros; by apply alter_id).
  assert (∀ m : gmap string Comment.t, alter id targetID m = m) as Hidc
    by (intros; by apply alter_id).
  assert (∀ e', set_votes id (set_comments (alter id targetID)
                                (set_posts (alter id targetID) e')) = e') as Hid.
  { intros e'. unfold set_votes, set_comments, set_posts. simpl.
    rewrite Hidp, Hidc. by destruct e'. }
  assert (∀ e' (fp : Post.t → Post.t) gv,
            set_votes gv (set_comments (alter id targetID)
                            (set_posts (alter fp targetID) e'))
            = set_votes gv (set_posts (alter fp targetID) e')) as Hp.
  { intros. unfold set_votes, set_comments, set_posts. simpl. by rewrite Hidc. }
  assert (∀ e' (fc : Comment.t → Comment.t) gv,
            set_votes gv (set_comments (alter fc targetID)
                            (set_posts (alter id targetID) e'))
            = set_votes gv (set_comments (alter fc targetID) e')) as Hc.
  { intros. unfold set_votes, set_comments, set_posts. simpl. by rewrite Hidp. }
  unfold exec.
  destruct (posts e !! targetID) as [p|] eqn:Hpost;
    [|destruct (comments e !! targetID) as [c|] eqn:Hcomment].
  - destruct (votes e !! voteID userID targetID) as [v|] eqn:Hv.
    + destruct (decide (Vote.IsUpvote v = isUpvote)) as [Hb|Hb].
      * exists id, id, id. rewrite Hid.
        erewrite Vote_repeat; [|left; rewrite Hpost; by eexists|done|done].
        split_and!; [done|by intros []|by intros []|by left].
      * exists (flip_vote_post isUpvote), id, (alter (Vote.set_IsUpvote isUpvote)
                                            (voteID userID targetID)).
        rewrite Hp. erewrite Vote_flip_post;
          [|done|done|by destruct (Vote.IsUpvote v), isUpvote].
        split_and!; [done| |by intros []|by right; right].
        intros []. by destruct isUpvote.
    + exists (first_vote_post isUpvote), id,
        (insert (voteID userID targetID) (Vote.mk "" userID targetID isUpvote now)).
      rewrite Hp. erewrite Vote_first_post; [|done|done].
      split_and!; [done| |by intros []|].
      * intros []. by destruct isUpvote.
      * right; left. split; [done|]. left. by eexists.
  - destruct (votes e !! voteID userID targetID) as [v|] eqn:Hv.
    + destruct (decide (Vote.IsUpvote v = isUpvote)) as [Hb|Hb].
      * exists id, id, id. rewrite Hid.
        erewrite Vote_repeat; [|right; rewrite Hcomment; by eexists|done|done].
        split_and!; [done|by intros []|by intros []|by left].
      * exists id, (flip_vote_comment isUpvote),
          (alter (Vote.set_IsUpvote isUpvote) (voteID userID targetID)).
        rewrite Hc. erewrite Vote_flip_comment;
          [|done|done|done|by destruct (Vote.IsUpvote v), isUpvote].
        split_and!; [done|by intros []| |by right; right].
        intros []. by destruct isUpvote.
    + exists id, (first_vote_comment isUpvote),
        (insert (voteID userID targetID) (Vote.mk "" userID targetID isUpvote now)).
      rewrite Hc. erewrite Vote_first_comment; [|done|done|done].
      split_and!; [done|by intros []| |].
      * intros []. by destruct isUpvote.
      * right; left. split; [done|]. right. by eexists.
  - exists id, id, id. rewrite Hid. rewrite Vote_target_not_found by done.
    split_and!; [done|by intros []|by intros []|by left].
Qed.

Lemma outcome_exec {A} (m : M A) e : (outcome m e).2 = exec m e.
Proof. unfold outcome, exec. by destruct (m e) as [[?|?] ?]. Qed.

Ltac kept :=
  simpl;
  repeat first
    [ rewrite lookup_insert_is_Some'
    | rewrite lookup_alter_is_Some ];
  auto.

Ltac use_consistent Hu Hs Hp Hc Hm Hv :=
  split_and!;
  [ intros k u Hk; simpl in Hk; try (by apply Hu)
  | intros k s Hk; simpl in Hk;
    try (destruct (Hs k s Hk) as (? & ? & Hmem);
         split_and!; [done|kept|];
         intros member b Hb; destruct (Hmem member b Hb); split; [done|kept])
  | intros k p Hk; simpl in Hk;
    try (destruct (Hp k p Hk) as (? & ? & ?); split_and!; [done|kept|kept])
  | intros k c Hk; simpl in Hk;
    try (destruct (Hc k c Hk) as (? & ? & ? & Hpar);
         split_and!; [done|kept|kept|];
         intros parent Hparent; specialize (Hpar parent Hparent); kept)
  | intros k m Hk; simpl in Hk;
    try (destruct (Hm k m Hk) as (? & ? & ?); split_and!; [done|kept|kept])
  | intros k v Hk; simpl in Hk;
    try (destruct (Hv k v Hk) as (? & ? & Htarget);
         split_and!; [done|done|]; destruct Htarget; [left|right]; kept) ].

Lemma consistent_RegisterAccount e id username hash now :
  consistent e →
  consistent (set_users (insert id (User.mk id username hash 0 false now)) e).
Proof.
  intros (Hu & Hs & Hp & Hc & Hm & Hv). use_consistent Hu Hs Hp Hc Hm Hv.
  rewrite lookup_insert in Hk. case_decide; simplify_eq; [done|by apply Hu].
Qed.

Lemma consistent_CreateSubReddit e id name description creatorID now :
  consistent e → is_Some (users e !! creatorID) →
  consistent
    (set_subreddits
       (insert id (SubReddit.mk id name description creatorID 0 0 now
                     {[creatorID := true]})) e).
Proof.
  intros (Hu & Hs & Hp & Hc & Hm & Hv) Hcreator.
  use_consistent Hu Hs Hp Hc Hm Hv.
  rewrite lookup_insert in Hk. case_decide; simplify_eq.
  - split_and!; [done|done|]. simpl. intros member b Hb.
    apply lookup_singleton_Some in Hb as [<- <-]. done.
  - destruct (Hs k s Hk) as (? & ? & Hmem). done.
Qed.

Lemma consistent_JoinSubReddit e userID subredditID :
  consistent e → is_Some (users e !! userID) →
  consistent
    (set_subreddits
       (alter (SubReddit.set_Members (insert userID true)) subredditID) e).
Proof.
  intros (Hu & Hs & Hp & Hc & Hm & Hv) Huser.
  use_consistent Hu Hs Hp Hc Hm Hv.
  rewrite lookup_alter in Hk. case_decide; simplify_eq;
    [|by destruct (Hs k s Hk) as (? & ? & Hmem)].
  apply fmap_Some in Hk as (s0 & Hk & ->).
  destruct (Hs _ _ Hk) as (? & ? & Hmem). split_and!; [done|done|].
  simpl. intros member b Hb. rewrite lookup_insert in Hb.
  case_decide; simplify_eq; [done|by apply Hmem].
Qed.

Lemma consistent_LeaveSubReddit e userID subredditID :
  consistent e →
  consistent
    (set_subreddits
       (alter (SubReddit.set_Members (delete userID)) subredditID) e).
Proof.
  intros (Hu & Hs & Hp & Hc & Hm & Hv).
  use_consistent Hu Hs Hp Hc Hm Hv.
  rewrite lookup_alter in Hk. case_decide; simplify_eq;
    [|by destruct (Hs k s Hk) as (? & ? & Hmem)].
  apply fmap_Some in Hk as (s0 & Hk & ->).
  destruct (Hs _ _ Hk) as (? & ? & Hmem). split_and!; [done|done|].
  simpl. intros member b Hb. apply lookup_delete_Some in Hb as [_ Hb].
  by apply Hmem.
Qed.

Lemma consistent_CreatePost e id title content authorID subredditID now :
  consistent e →
  is_Some (users e !! authorID) → is_Some (subreddits e !! subredditID) →
  consistent
    (set_posts
       (insert id (Post.mk id title content authorID subredditID
                     false "" 0 0 0 now)) e).
Proof.
  intros (Hu & Hs & Hp & Hc & Hm & Hv) Ha Hsub.
  use_consistent Hu Hs Hp Hc Hm Hv.
  rewrite lookup_insert in Hk. case_decide; simplify_eq; [done|].
  by destruct (Hp k p Hk) as (? & ? & ?).
Qed.

Lemma consistent_CreateComment e id content authorID postID parentCommentID now :
  consistent e →
  is_Some (users e !! authorID) → is_Some (posts e !! postID) →
  (∀ parent, parentCommentID = Some parent → is_Some (comments e !! parent)) →
  consistent
    (set_comments
       (insert id (Comment.mk id content authorID postID parentCommentID
                     0 0 0 now)) e).
Proof.
  intros (Hu & Hs & Hp & Hc & Hm & Hv) Ha Hpost Hparent.
  use_consistent Hu Hs Hp Hc Hm Hv.
  rewrite lookup_insert in Hk. case_decide; simplify_eq.
  - split_and!; [done|done|done|]. simpl. intros parent Hpar. kept.
  - destruct (Hc k c Hk) as (? & ? & ? & Hpar). split_and!; [done..|].
    intros parent Hpa. specialize (Hpar parent Hpa). kept.
Qed.

Lemma consistent_SendDirectMessage e id fromID toID content now :
  consistent e →
  is_Some (users e !! fromID) → is_Some (users e !! toID) →
  consistent
    (set_messages
       (insert id (DirectMessage.mk id fromID toID content false now)) e).
Proof.
  intros (Hu & Hs & Hp & Hc & Hm & Hv) Hf Ht.
  use_consistent Hu Hs Hp Hc Hm Hv.
  rewrite lookup_insert in Hk. case_decide; simplify_eq; [done|].
  by destruct (Hm k m Hk) as (? & ? & ?).
Qed.

Lemma consistent_Vote e userID targetID isUpvote now :
  consistent e → consistent (exec (Vote userID targetID isUpvote now) e).
Proof.
  intros (Hu & Hs & Hp & Hc & Hm & Hv).
  destruct (Vote_cases e userID targetID isUpvote now)
    as (fp & fc & gv & -> & Hfp & Hfc & Hgv).
  assert (∀ k v, gv (votes e) !! k = Some v →
            k = voteID (Vote.UserID v) (Vote.TargetID v) ∧ Vote.ID v = ""
            ∧ (is_Some (posts e !! Vote.TargetID v)
               ∨ is_Some (comments e !! Vote.TargetID v))) as Hv'.
  { intros k v Hk. destruct Hgv as [->|[[-> Htarget]| ->]].
    - by apply Hv.
    - rewrite lookup_insert in Hk. case_decide; simplify_eq; [done|by apply Hv].
    - rewrite lookup_alter in Hk. case_decide; simplify_eq; [|by apply Hv].
      apply fmap_Some in Hk as (v0 & Hk & ->). by destruct (Hv _ _ Hk). }
  use_consistent Hu Hs Hp Hc Hm Hv.
  - rewrite lookup_alter in Hk. case_decide; simplify_eq;
      [|by destruct (Hp k p Hk) as (? & ? & ?)].
    apply fmap_Some in Hk as (p0 & Hk & ->).
    destruct (Hp _ _ Hk) as (? & ? & ?). rewrite Hfp. done.
  - rewrite lookup_alter in Hk. case_decide; simplify_eq.
    + apply fmap_Some in Hk as (c0 & Hk & ->).
      destruct (Hc _ _ Hk) as (? & ? & ? & Hpar). rewrite Hfc. simpl.
      split_and!; [done|done|kept|]. intros parent Hpa.
      specialize (Hpar parent Hpa). kept.
    + destruct (Hc k c Hk) as (? & ? & ? & Hpar).
      split_and!; [done|done|kept|]. intros parent Hpa.
      specialize (Hpar parent Hpa). kept.
  - destruct (Hv' k v Hk) as (? & ? & Htarget).
    split_and!; [done|done|]. destruct Htarget; [left|right]; kept.
Qed.

Lemma run_consistent o e : consistent e → consistent (run o e).2.
Proof.
  intros H. destruct (read_only o) eqn:Hro;
    [by rewrite run_read_only|].
  destruct o; try discriminate Hro; simpl; rewrite outcome_exec.
  - destruct (RegisterAccount_cases e username password id now hashed)
      as [->|[hash ->]]; [done|by apply consistent_RegisterAccount].
  - destruct (CreateSubReddit_cases e name description creatorID id now)
      as [->|[? ->]]; [done|by apply consistent_CreateSubReddit].
  - destruct (JoinSubReddit_cases e userID subredditID)
      as [->|[? ->]]; [done|by apply consistent_JoinSubReddit].
  - destruct (LeaveSubReddit_cases e userID subredditID)
      as [->| ->]; [done|by apply consistent_LeaveSubReddit].
  - destruct (CreatePost_cases e title content authorID subredditID id now)
      as [->|(? & ? & ->)]; [done|by apply consistent_CreatePost].
  - destruct (CreateComment_cases e content authorID postID parentCommentID id now)
      as [->|(? & ? & ? & ->)]; [done|by apply consistent_CreateComment].
  - by apply consistent_Vote.
  - destruct (SendDirectMessage_cases e fromID toID content id now)
      as [->|(? & ? & ->)]; [done|by apply consistent_SendDirectMessage].
Qed.

Lemma reachable_is_consistent e : reachable e → consistent e.
Proof.
  induction 1 as [|e o Hr IH]; [|by apply run_consistent].
  unfold consistent. split_and!; intros k x Hk; simpl in Hk;
    by rewrite lookup_empty in Hk.
Qed.

(** X16. No reference dangles in an engine that calls of the methods
    build: every user, subreddit, post, comment and message is stored
    under its own identifier; the creator and the members of a subreddit,
    the author and the subreddit of a post, the author, the post and the
    parent of a comment and the two ends of a message are stored; a vote is
    stored under the key of its user and target, has an empty [ID] of its
    own, and its target is a stored post or comment. *)
Theorem reachable_consistent e : reachable e → consistent e.
Proof. apply reachable_is_consistent. Qed.

Lemma reachable_consistent_witness : consistent feed_sample.
Proof.
  apply reachable_consistent. do 2 apply reachable_run_all. apply reachable_new.
Defined.

(** X17. Nothing is ever deleted: after any call, every identifier that
    named a user, a subreddit, a post, a comment, a message or a vote
    before the call still names one. Only memberships can go, by
    [LeaveSubReddit]. *)
Theorem run_keeps_entities o e :
  let e' := (run o e).2 in
  (∀ k, is_Some (users e !! k) → is_Some (users e' !! k))
  ∧ (∀ k, is_Some (subreddits e !! k) → is_Some (subreddits e' !! k))
  ∧ (∀ k, is_Some (posts e !! k) → is_Some (posts e' !! k))
  ∧ (∀ k, is_Some (comments e !! k) → is_Some (comments e' !! k))
  ∧ (∀ k, is_Some (messages e !! k) → is_Some (messages e' !! k))
  ∧ (∀ k, is_Some (votes e !! k) → is_Some (votes e' !! k)).
Proof.
  intros e'. subst e'. destruct (read_only o) eqn:Hro;
    [by rewrite run_read_only|].
  destruct o; try discriminate Hro; simpl; rewrite outcome_exec.
  - destruct (RegisterAccount_cases e username password id now hashed)
      as [->|[hash ->]]; [done|]. split_and!; intros k Hk; kept.
  - destruct (CreateSubReddit_cases e name description creatorID id now)
      as [->|[? ->]]; [done|]. split_and!; intros k Hk; kept.
  - destruct (JoinSubReddit_cases e userID subredditID)
      as [->|[? ->]]; [done|]. split_and!; intros k Hk; kept.
  - destruct (LeaveSubReddit_cases e userID subredditID)
      as [->| ->]; [done|]. split_and!; intros k Hk; kept.
  - destruct (CreatePost_cases e title content authorID subredditID id now)
      as [->|(? & ? & ->)]; [done|]. split_and!; intros k Hk; kept.
  - destruct (CreateComment_cases e content authorID postID parentCommentID id now)
      as [->|(? & ? & ? & ->)]; [done|]. split_and!; intros k Hk; kept.
  - destruct (Vote_cases e userID targetID isUpvote now)
      as (fp & fc & gv & -> & _ & _ & Hgv).
    split_and!; intros k Hk; kept.
    destruct Hgv as [->|[[-> _]| ->]]; kept.
  - destruct (SendDirectMessage_cases e fromID toID content id now)
      as [->|(? & ? & ->)]; [done|]. split_and!; intros k Hk; kept.
Qed.

(** X18. A stranger sees nothing: in an engine that calls of the methods
    build, the feed of an identifier that no user has is empty, and so is
    the listing of the posts of an identifier that no subreddit has;
    neither call fails. *)
Theorem empty_feed_and_listing e :
  reachable e →
  (∀ userID, users e !! userID = None → GetFeed userID e = (Ok [], e))
  ∧ (∀ subredditID, subreddits e !! subredditID = None →
       ListPosts subredditID e = (Ok [], e)).
Proof.
  intros (Hu & Hs & Hp & Hc & Hm & Hv)%reachable_is_consistent. split.
  - intros userID Hnone. rewrite GetFeed_filter. f_equal. f_equal.
    apply elem_of_nil_inv. intros p ([k p'] & -> & Hin)%list_elem_of_fmap.
    apply list_elem_of_filter in Hin as [Hsub _].
    apply userSubscriptions_spec in Hsub as (ks & s & Hks & [b Hb] & _).
    destruct (Hs _ _ Hks) as (_ & _ & Hmem).
    destruct (Hmem _ _ Hb) as [_ [u Husr]]. congruence.
  - intros subredditID Hnone. rewrite ListPosts_filter. f_equal. f_equal.
    apply elem_of_nil_inv. intros p ([k p'] & -> & Hin)%list_elem_of_fmap.
    apply list_elem_of_filter in Hin as [Hsub Hin]. simpl in Hsub.
    apply bool_decide_eq_true in Hsub. apply elem_of_map_to_list in Hin.
    destruct (Hp _ _ Hin) as (_ & _ & [s Hsome]). congruence.
Qed.

Lemma empty_feed_and_listing_witness :
  GetFeed uid_dave feed_sample = (Ok [], feed_sample)
  ∧ ListPosts pid_generics feed_sample = (Ok [], feed_sample).
Proof.
  destruct (empty_feed_and_listing feed_sample) as [Hfeed Hlist].
  { do 2 apply reachable_run_all. apply reachable_new. }
  split; [apply Hfeed|apply Hlist]; vm_compute; reflexivity.
Defined.

(** ** Posts and feeds *)

Lemma GetFeed_elem e userID feed p :
  consistent e →
  eval (GetFeed userID) e = Ok feed →
  p ∈ feed
  ↔ (∃ k, posts e !! k = Some p)
    ∧ ∃ s, subreddits e !! Post.SubRedditID p = Some s ∧ isMember userID s.
Proof.
  intros (_ & Hs & _) Hfeed. unfold eval in Hfeed.
  rewrite GetFeed_filter in Hfeed. simpl in Hfeed. injection Hfeed as <-.
  rewrite list_elem_of_fmap. split.
  - intros ([k p'] & -> & Hin). apply list_elem_of_filter in Hin as [Hsub Hin].
    apply elem_of_map_to_list in Hin. simpl in *. split; [by exists k|].
    apply userSubscriptions_spec in Hsub as (ks & s & Hks & Hmem & Hid).
    exists s. split; [|done]. destruct (Hs _ _ Hks) as (Hkey & _). congruence.
  - intros [[k Hk] (s & Hsub & Hmem)]. exists (k, p). split; [done|].
    apply list_elem_of_filter. split; [|by apply elem_of_map_to_list].
    simpl. apply userSubscriptions_spec. exists (Post.SubRedditID p), s.
    split_and!; [done..|]. by destruct (Hs _ _ Hsub) as (Hkey & _).
Qed.

(** X19. A post that a member creates is there for its readers: in an
    engine that calls of the methods build, after a [CreatePost] by a
    member of the subreddit, [GetPost] of the new identifier returns the
    post, [ListPosts] of the subreddit lists it, and it is in the feed of a
    user exactly when that user is a member of the subreddit. *)
Theorem CreatePost_visible e title content authorID subredditID id now a s :
  reachable e →
  users e !! authorID = Some a →
  subreddits e !! subredditID = Some s →
  isMember authorID s →
  let post := Post.mk id title content authorID subredditID false "" 0 0 0 now in
  let e' := exec (CreatePost title content authorID subredditID id now) e in
  eval (GetPost id) e' = Ok post
  ∧ (∃ l, eval (ListPosts subredditID) e' = Ok l ∧ post ∈ l)
  ∧ (∀ userID feed, eval (GetFeed userID) e' = Ok feed →
       post ∈ feed ↔ isMember userID s).
Proof.
  intros Hr Ha Hs Hm post e'.
  assert (e' = set_posts (insert id post) e) as He'.
  { unfold e', exec. by erewrite CreatePost_member. }
  assert (consistent e') as Hcons.
  { rewrite He'. apply consistent_CreatePost;
      [by apply reachable_is_consistent|by eexists..]. }
  assert (posts e' !! id = Some post) as Hid
    by (rewrite He'; apply lookup_insert_eq).
  split_and!.
  - unfold eval, GetPost. unfold_M. by rewrite Hid.
  - eexists. split; [unfold eval; by rewrite ListPosts_filter|]. simpl.
    apply list_elem_of_fmap. exists (id, post). split; [done|].
    apply list_elem_of_filter. split; [by apply bool_decide_eq_true|].
    by apply elem_of_map_to_list.
  - intros userID feed Hfeed. rewrite (GetFeed_elem _ _ _ _ Hcons Hfeed).
    assert (subreddits e' !! subredditID = Some s) as Hs'
      by (by rewrite He').
    simpl. rewrite Hs'. split.
    + intros [_ (s' & Heq & Hmem)]. by simplify_eq.
    + intros Hmem. split; [by exists id|by exists s].
Qed.

Lemma CreatePost_visible_witness :
  let e' := exec (CreatePost "generics" "at last" uid_alice sid_golang
                    pid_generics 8) sample in
  eval (GetPost pid_generics) e'
  = Ok (Post.mk pid_generics "generics" "at last" uid_alice sid_golang
          false "" 0 0 0 8).
Proof.
  assert (users sample !! uid_alice
          = Some (User.mk uid_alice "alice" "$2a$10$alice" 0 false 1)) as Ha
    by (vm_compute; reflexivity).
  assert (subreddits sample !! sid_golang
          = Some (SubReddit.mk sid_golang "golang" "The Go language" uid_alice 0 0 4
                    {[ uid_alice := true ]})) as Hs
    by (vm_compute; reflexivity).
  assert (reachable sample) as Hr by apply reachable_run_all, reachable_new.
  destruct (CreatePost_visible sample "generics" "at last" uid_alice sid_golang
              pid_generics 8 _ _ Hr Ha Hs) as (Hget & _).
  - eexists. apply lookup_singleton_eq.
  - exact Hget.
Defined.

(** X20. Membership decides the feed at the time of the call, not at the
    time of posting. In an engine that calls of the methods build: after
    [JoinSubReddit] succeeds, every stored post of the subreddit is in the
    feed of the user; after [LeaveSubReddit], no post of the subreddit is
    in the feed of the user, while the posts themselves all stay stored;
    and neither call changes the feed of any other user. *)
Theorem membership_changes_feed e userID subredditID u s :
  reachable e →
  users e !! userID = Some u →
  subreddits e !! subredditID = Some s →
  let joined := exec (JoinSubReddit userID subredditID) e in
  let left := exec (LeaveSubReddit userID subredditID) e in
  posts joined = posts e ∧ posts left = posts e
  ∧ (∀ feed k p, eval (GetFeed userID) joined = Ok feed →
       posts e !! k = Some p → Post.SubRedditID p = subredditID → p ∈ feed)
  ∧ (∀ feed p, eval (GetFeed userID) left = Ok feed →
       p ∈ feed → Post.SubRedditID p ≠ subredditID)
  ∧ (∀ other feed feed' p, other ≠ userID →
       eval (GetFeed other) e = Ok feed →
       (eval (GetFeed other) joined = Ok feed'
        ∨ eval (GetFeed other) left = Ok feed') →
       p ∈ feed' ↔ p ∈ feed).
Proof.
  intros Hr Hu Hs joined left.
  pose proof (reachable_is_consistent e Hr) as Hcons.
  assert (joined = set_subreddits
            (alter (SubReddit.set_Members (insert userID true)) subredditID) e)
    as Hj by (unfold joined, exec; by rewrite (JoinSubReddit_ok _ _ _ _ _ Hu Hs)).
  assert (left = set_subreddits
            (alter (SubReddit.set_Members (delete userID)) subredditID) e)
    as Hl by (unfold left, exec; by rewrite (LeaveSubReddit_ok _ _ _ _ Hs)).
  assert (consistent joined) as Hcj
    by (rewrite Hj; apply consistent_JoinSubReddit; [done|by eexists]).
  assert (consistent left) as Hcl
    by (rewrite Hl; by apply consistent_LeaveSubReddit).
  assert (∀ k, subreddits joined !! k
               = if decide (subredditID = k)
                 then Some (SubReddit.set_Members (insert userID true) s)
                 else subreddits e !! k) as Hsj.
  { intros k. rewrite Hj. simpl. rewrite lookup_alter.
    case_decide; [subst; by rewrite Hs|done]. }
  assert (∀ k, subreddits left !! k
               = if decide (subredditID = k)
                 then Some (SubReddit.set_Members (delete userID) s)
                 else subreddits e !! k) as Hsl.
  { intros k. rewrite Hl. simpl. rewrite lookup_alter.
    case_decide; [subst; by rewrite Hs|done]. }
  assert (posts joined = posts e) as Hpj by (by rewrite Hj).
  assert (posts left = posts e) as Hpl by (by rewrite Hl).
  split_and!; [done|done| | |].
  - intros feed k p Hfeed Hk Hid. rewrite (GetFeed_elem _ _ _ _ Hcj Hfeed).
    split; [exists k; by rewrite Hpj|]. rewrite Hsj, Hid, decide_True by done.
    eexists. split; [done|]. eexists. simpl. apply lookup_insert_eq.
  - intros feed p Hfeed Hin Hid.
    apply (GetFeed_elem _ _ _ _ Hcl Hfeed) in Hin as [_ (s' & Hs' & [b Hb])].
    rewrite Hsl, Hid, decide_True in Hs' by done. simplify_eq.
    simpl in Hb. by rewrite lookup_delete_eq in Hb.
  - intros other feed feed' p Hne Hfeed Hfeed'.
    rewrite (GetFeed_elem _ _ _ _ Hcons Hfeed).
    assert (∀ s0 : SubReddit.t,
      isMember other (SubReddit.set_Members (insert userID true) s0)
      ↔ isMember other s0) as Hmi.
    { intros s0. unfold isMember. simpl. by rewrite lookup_insert_ne by done. }
    assert (∀ s0 : SubReddit.t,
      isMember other (SubReddit.set_Members (delete userID) s0)
      ↔ isMember other s0) as Hmd.
    { intros s0. unfold isMember. simpl. by rewrite lookup_delete_ne by done. }
    destruct Hfeed' as [Hfeed'|Hfeed'].
    + rewrite (GetFeed_elem _ _ _ _ Hcj Hfeed'). rewrite Hpj.
      apply and_iff_compat_l. rewrite Hsj. case_decide as Hk; [|done].
      rewrite <- Hk, Hs. split.
      * intros (s' & Heq & Hm). simplify_eq. exists s.
        split; [done|by apply Hmi].
      * intros (s' & Heq & Hm). simplify_eq. eexists.
        split; [done|by apply Hmi].
    + rewrite (GetFeed_elem _ _ _ _ Hcl Hfeed'). rewrite Hpl.
      apply and_iff_compat_l. rewrite Hsl. case_decide as Hk; [|done].
      rewrite <- Hk, Hs. split.
      * intros (s' & Heq & Hm). simplify_eq. exists s.
        split; [done|by apply Hmd].
      * intros (s' & Heq & Hm). simplify_eq. eexists.
        split; [done|by apply Hmd].
Qed.

Lemma membership_changes_feed_witness :
  posts (exec (LeaveSubReddit uid_alice sid_golang) sample) = posts sample
  ∧ ∀ feed p,
      eval (GetFeed uid_alice) (exec (LeaveSubReddit uid_alice sid_golang) sample)
      = Ok feed →
      p ∈ feed → Post.SubRedditID p ≠ sid_golang.
Proof.
  assert (users sample !! uid_alice
          = Some (User.mk uid_alice "alice" "$2a$10$alice" 0 false 1)) as Ha
    by (vm_compute; reflexivity).
  assert (subreddits sample !! sid_golang
          = Some (SubReddit.mk sid_golang "golang" "The Go language" uid_alice 0 0 4
                    {[ uid_alice := true ]})) as Hs
    by (vm_compute; reflexivity).
  assert (reachable sample) as Hr by apply reachable_run_all, reachable_new.
  destruct (membership_changes_feed sample uid_alice sid_golang _ _ Hr Ha Hs)
    as (_ & Hposts & _ & Hleft & _).
  split; [exact Hposts|exact Hleft].
Defined.

(** * The configuration of the services (pkg/config/ports.go) *)

Lemma address_inj host port1 port2 :
  Config.address host port1 = Config.address host port2 → port1 = port2.
Proof.
  unfold Config.address. intros Heq.
  apply (inj (String.app host)) in Heq. apply (inj (String.app ":")) in Heq.
  by apply (inj pretty) in Heq.
Qed.

(** X21. [Validate] accepts a configuration exactly when the engine port
    differs from the metrics port and from the client port and at least
    one connection is allowed; a clash of ports is reported before the
    bound on the connections. The default configuration is accepted. For
    an accepted configuration the engine address differs from the two
    metrics addresses. The metrics port and the client port are never
    compared: a configuration stays accepted when its client port is set
    to its metrics port, and its two metrics addresses then coincide. *)
Theorem Validate_accepts (c : Config.ServiceConfig) :
  (Config.Validate c = None
   ↔ Config.EnginePort c ≠ Config.MetricsPort c
     ∧ Config.EnginePort c ≠ Config.ClientPort c
     ∧ 1 <= Config.MaxConnections c)
  ∧ (Config.Validate c = Some "ports must be different"
     ↔ Config.EnginePort c = Config.MetricsPort c
       ∨ Config.EnginePort c = Config.ClientPort c)
  ∧ Config.Validate Config.NewDefaultConfig = None
  ∧ (Config.Validate c = None →
     Config.GetEngineAddress c ≠ Config.GetMetricsAddress c
     ∧ Config.GetEngineAddress c ≠ Config.GetClientMetricsAddress c
     ∧ let c' := Config.mk (Config.EngineHost c) (Config.EnginePort c)
                   (Config.MetricsPort c) (Config.MetricsPort c)
                   (Config.MaxConnections c) (Config.ConnectionTimeout c) in
       Config.Validate c' = None
       ∧ Config.GetMetricsAddress c' = Config.GetClientMetricsAddress c').
Proof.
  assert (∀ c : Config.ServiceConfig,
    Config.Validate c = None
    ↔ Config.EnginePort c ≠ Config.MetricsPort c
      ∧ Config.EnginePort c ≠ Config.ClientPort c
      ∧ 1 <= Config.MaxConnections c) as Hvalid.
  { intros c0. unfold Config.Validate.
    repeat case_bool_decide; simpl; split; try done; try lia; intros (? & ? & ?);
      try done; lia. }
  split_and!.
  - apply Hvalid.
  - unfold Config.Validate.
    repeat case_bool_decide; simpl; split; try done; try tauto;
      intros [?|?]; done.
  - reflexivity.
  - intros (Hm & Hc & Hn)%Hvalid. split_and!.
    + by intros ?%address_inj.
    + by intros ?%address_inj.
    + simpl. split; [by apply Hvalid|done].
Qed.

Lemma Validate_accepts_witness :
  Config.GetEngineAddress Config.NewDefaultConfig
  ≠ Config.GetMetricsAddress Config.NewDefaultConfig.
Proof.
  destruct (Validate_accepts Config.NewDefaultConfig) as (_ & _ & Hd & Haddr).
  by destruct (Haddr Hd) as (Hne & _).
Defined.


(** * The collector of metrics (pkg/metrics/metrics.go) *)

Lemma sumZ_app l1 l2 : sumZ (l1 ++ l2) = sumZ l1 + sumZ l2.
Proof. induction l1 as [|x l1 IH]; simpl; [done|]. rewrite IH. lia. Qed.

Lemma sumZ_nonneg l : Forall (λ d, 0 <= d) l → 0 <= sumZ l.
Proof. induction 1; simpl; lia. Qed.

Lemma foldl_wrap64_sum l acc :
  Forall (λ d, 0 <= d) l → 0 <= acc → acc + sumZ l < 2 ^ 63 →
  foldl (λ total latency, wrap64 (total + latency)) acc l = acc + sumZ l.
Proof.
  intros Hl. revert acc. induction Hl as [|x l Hx Hl IH]; intros acc Hacc Hsum;
    simpl in *; [lia|].
  pose proof (sumZ_nonneg l Hl).
  rewrite wrap64_id by (unfold int64_range; lia).
  rewrite IH; lia.
Qed.

Lemma cons_Latency endpoint duration now ms endpoint' :
  all_latencies (Latency endpoint duration now :: ms) = duration :: all_latencies ms
  ∧ all_failures (Latency endpoint duration now :: ms) = all_failures ms
  ∧ failures_of endpoint' (Latency endpoint duration now :: ms)
    = failures_of endpoint' ms
  ∧ latencies_of endpoint' (Latency endpoint duration now :: ms)
    = (if decide (endpoint = endpoint') then [duration] else [])
      ++ latencies_of endpoint' ms.
Proof.
  unfold all_latencies, all_failures, failures_of, latencies_of, calls_of.
  simpl. split_and!; [done..|]. by case_decide.
Qed.

Lemma cons_Failure endpoint ms endpoint' :
  all_latencies (Failure endpoint :: ms) = all_latencies ms
  ∧ all_failures (Failure endpoint :: ms) = tt :: all_failures ms
  ∧ failures_of endpoint' (Failure endpoint :: ms)
    = (if decide (endpoint = endpoint') then [tt] else [])
      ++ failures_of endpoint' ms
  ∧ latencies_of endpoint' (Failure endpoint :: ms) = latencies_of endpoint' ms.
Proof.
  unfold all_latencies, all_failures, failures_of, latencies_of, calls_of.
  simpl. split_and!; [done..| |done]. by case_decide.
Qed.

Lemma latencies_of_bound endpoint ms :
  Forall (λ d, 0 <= d) (all_latencies ms) →
  Forall (λ d, 0 <= d) (latencies_of endpoint ms)
  ∧ sumZ (latencies_of endpoint ms) <= sumZ (all_latencies ms)
  ∧ (length (latencies_of endpoint ms) <= length ms)%nat
  ∧ (length (failures_of endpoint ms) <= length ms)%nat
  ∧ (length (all_failures ms) <= length ms)%nat
  ∧ (length (all_latencies ms) <= length ms)%nat.
Proof.
  induction ms as [|[ep d now|ep] ms IH].
  - intros _. split_and!; [constructor|simpl; lia..].
  - destruct (cons_Latency ep d now ms endpoint) as (-> & -> & -> & ->).
    intros [Hd Hall]%Forall_cons.
    destruct (IH Hall) as (H1 & H2 & H3 & H4 & H5 & H6).
    pose proof (sumZ_nonneg _ Hall).
    case_decide; simpl; split_and!; try lia; try done. by constructor.
  - destruct (cons_Failure ep ms endpoint) as (-> & -> & -> & ->).
    intros Hall. destruct (IH Hall) as (H1 & H2 & H3 & H4 & H5 & H6).
    case_decide; simpl; split_and!; try lia; done.
Qed.

Lemma quot_bounds a b : 0 <= a → 0 < b → 0 <= Z.quot a b <= a.
Proof.
  intros Ha Hb. rewrite Z.quot_div_nonneg by lia. split.
  - apply Z.div_pos; lia.
  - apply Z.div_le_upper_bound; nia.
Qed.

Lemma mean_snoc l d :
  mean (l ++ [d]) = Z.quot (sumZ l + d) (Z.of_nat (length l) + 1).
Proof.
  unfold mean. rewrite bool_decide_eq_false_2 by (by destruct l).
  rewrite sumZ_app, length_app. simpl. f_equal; lia.
Qed.

Lemma endpoint_stats_expected ms c endpoint :
  holds ms c → Collector.endpoint_stats c endpoint = expected_entry endpoint ms.
Proof.
  intros (_ & Hep & _). unfold Collector.endpoint_stats. rewrite Hep.
  unfold expected. case_bool_decide as Hnone; [|done].
  destruct Hnone as [Hl Hf]. unfold expected_entry, mean, last_call.
  rewrite Hl, Hf. unfold latencies_of in Hl. apply fmap_nil_inv in Hl.
  by rewrite Hl.
Qed.

Lemma snoc_Latency endpoint duration now ms endpoint' :
  all_latencies (ms ++ [Latency endpoint duration now])
  = all_latencies ms ++ [duration]
  ∧ all_failures (ms ++ [Latency endpoint duration now]) = all_failures ms
  ∧ failures_of endpoint' (ms ++ [Latency endpoint duration now])
    = failures_of endpoint' ms
  ∧ calls_of endpoint' (ms ++ [Latency endpoint duration now])
    = calls_of endpoint' ms
      ++ (if decide (endpoint = endpoint') then [(duration, now)] else []).
Proof.
  unfold all_latencies, all_failures, failures_of, calls_of.
  rewrite !omap_app. simpl. rewrite !app_nil_r.
  split_and!; [done..|]. by case_decide.
Qed.

Lemma snoc_Failure endpoint ms endpoint' :
  all_latencies (ms ++ [Failure endpoint]) = all_latencies ms
  ∧ all_failures (ms ++ [Failure endpoint]) = all_failures ms ++ [tt]
  ∧ failures_of endpoint' (ms ++ [Failure endpoint])
    = failures_of endpoint' ms
      ++ (if decide (endpoint = endpoint') then [tt] else [])
  ∧ calls_of endpoint' (ms ++ [Failure endpoint]) = calls_of endpoint' ms.
Proof.
  unfold all_latencies, all_failures, failures_of, calls_of.
  rewrite !omap_app. simpl. rewrite !app_nil_r.
  split_and!; [done..| |done]. by case_decide.
Qed.

Lemma expected_other m ms endpoint :
  (∀ duration now, m ≠ Latency endpoint duration now) →
  m ≠ Failure endpoint →
  expected endpoint (ms ++ [m]) = expected endpoint ms.
Proof.
  intros Hl Hf. unfold expected, expected_entry, latencies_of, last_call, mean.
  destruct m as [ep d now|ep].
  - destruct (snoc_Latency ep d now ms endpoint) as (_ & _ & -> & ->).
    rewrite decide_False by (intros ->; by eapply Hl). by rewrite app_nil_r.
  - destruct (snoc_Failure ep ms endpoint) as (_ & _ & -> & ->).
    rewrite decide_False by (intros ->; by eapply Hf). by rewrite app_nil_r.
Qed.

Lemma RecordError_holds ms endpoint c :
  holds ms c → within_int64 (ms ++ [Failure endpoint]) →
  holds (ms ++ [Failure endpoint]) (Collector.RecordError endpoint c).
Proof.
  intros Hc (Hpos & Hsum & Hlen).
  pose proof (endpoint_stats_expected ms c endpoint Hc) as Hentry.
  destruct Hc as (Hlat & Hep & Herr & Havg).
  rewrite length_app in Hlen. simpl in Hlen.
  destruct (snoc_Failure endpoint ms endpoint) as (Hal & Haf & Hf & Hcalls).
  rewrite decide_True in Hf by done.
  rewrite Hal in Hpos.
  destruct (latencies_of_bound endpoint ms Hpos) as (_ & _ & _ & Hnf & Hnaf & _).
  unfold holds, Collector.RecordError. rewrite Hentry. simpl.
  split_and!.
  - by rewrite Hal.
  - intros endpoint'. destruct (decide (endpoint = endpoint')) as [<-|Hne].
    + rewrite lookup_insert_eq. unfold expected.
      rewrite Hf, bool_decide_eq_false_2
        by (intros [_ Hnil]; by destruct (failures_of endpoint ms)).
      f_equal. unfold expected_entry, latencies_of, last_call, mean.
      rewrite Hf, Hcalls, length_app. simpl.
      rewrite wrap64_id by (unfold int64_range; lia). f_equal. lia.
    + rewrite lookup_insert_ne by done. rewrite Hep.
      symmetry. apply expected_other; [done|]. by intros [= ->].
  - rewrite Herr, Haf, length_app. simpl.
    rewrite wrap64_id by (unfold int64_range; lia). lia.
  - by rewrite Havg, Hal.
Qed.

Lemma RecordLatency_holds ms endpoint duration now c :
  holds ms c → within_int64 (ms ++ [Latency endpoint duration now]) →
  ∃ c', Collector.RecordLatency endpoint duration now c = Some c'
        ∧ holds (ms ++ [Latency endpoint duration now]) c'.
Proof.
  intros Hc (Hpos & Hsum & Hlen).
  pose proof (endpoint_stats_expected ms c endpoint Hc) as Hentry.
  destruct Hc as (Hlat & Hep & Herr & Havg).
  rewrite length_app in Hlen. simpl in Hlen.
  destruct (snoc_Latency endpoint duration now ms endpoint)
    as (Hal & Haf & Hf & Hcalls).
  rewrite decide_True in Hcalls by done.
  rewrite Hal in Hpos, Hsum. rewrite sumZ_app in Hsum. simpl in Hsum.
  apply Forall_app in Hpos as [Hpos Hd]. rewrite Forall_singleton in Hd.
  destruct (latencies_of_bound endpoint ms Hpos)
    as (Hposl & Hsuml & Hnl & _ & _ & Hnal).
  pose proof (sumZ_nonneg _ Hposl) as Hsl0.
  pose proof (sumZ_nonneg _ Hpos) as Hsa0.
  assert (latencies_of endpoint (ms ++ [Latency endpoint duration now])
          = latencies_of endpoint ms ++ [duration]) as Hl'.
  { unfold latencies_of. by rewrite Hcalls, fmap_app. }
  assert (last_call endpoint (ms ++ [Latency endpoint duration now]) = Some now)
    as Hlast.
  { unfold last_call. rewrite Hcalls, fmap_app. apply last_snoc. }
  unfold Collector.RecordLatency. rewrite Hentry. simpl.
  rewrite !wrap64_id by (unfold int64_range; lia).
  unfold Collector.div64 at 1.
  rewrite bool_decide_eq_false_2 by lia. simpl.
  pose proof (quot_bounds (sumZ (latencies_of endpoint ms) + duration)
                (Z.of_nat (length (latencies_of endpoint ms)) + 1)
                ltac:(lia) ltac:(lia)) as Hq.
  rewrite wrap64_id by (unfold int64_range; lia).
  unfold Collector.updateAverageLatency. simpl. rewrite Hlat.
  rewrite bool_decide_eq_false_2
    by (rewrite length_app; simpl; lia).
  rewrite foldl_wrap64_sum;
    [|apply Forall_app; split; [done|by repeat constructor]
     |lia|rewrite sumZ_app; simpl; lia].
  rewrite Z.add_0_l, sumZ_app, length_app. simpl.
  unfold Collector.div64. rewrite bool_decide_eq_false_2 by lia. simpl.
  pose proof (quot_bounds (sumZ (all_latencies ms) + (duration + 0))
                (Z.of_nat (length (all_latencies ms) + 1))
                ltac:(lia) ltac:(lia)) as Hqa.
  rewrite wrap64_id by (unfold int64_range; lia).
  eexists. split; [done|]. unfold holds. simpl. split_and!.
  - by rewrite Hal.
  - intros endpoint'. destruct (decide (endpoint = endpoint')) as [<-|Hne].
    + rewrite lookup_insert_eq. unfold expected.
      rewrite Hl', bool_decide_eq_false_2
        by (intros [Hnil _]; by destruct (latencies_of endpoint ms)).
      f_equal. unfold expected_entry.
      rewrite Hl', Hlast, Hf, mean_snoc, sumZ_app, length_app. simpl.
      f_equal; lia.
    + rewrite lookup_insert_ne by done. rewrite Hep.
      symmetry. apply expected_other; [|done]. by intros ? ? [= ->].
  - by rewrite Herr, Haf.
  - rewrite Hal, mean_snoc. f_equal; lia.
Qed.

Lemma within_int64_prefix ms m : within_int64 (ms ++ [m]) → within_int64 ms.
Proof.
  intros (Hpos & Hsum & Hlen). rewrite length_app in Hlen. simpl in Hlen.
  destruct m as [ep d now|ep].
  - destruct (snoc_Latency ep d now ms ep) as (Hal & _).
    rewrite Hal in Hpos, Hsum. rewrite sumZ_app in Hsum. simpl in Hsum.
    apply Forall_app in Hpos as [Hpos Hd]. rewrite Forall_singleton in Hd.
    split_and!; [done|lia|lia].
  - destruct (snoc_Failure ep ms ep) as (Hal & _).
    rewrite Hal in Hpos, Hsum. split_and!; [done|done|lia].
Qed.

(** X22. The collector keeps exact books. After any records of latencies
    and errors on a new collector, none of the latencies negative and
    their sum and the number of records below the largest [int64], no call
    panicked and the collector holds: the latencies in the order of the
    records; for each endpoint that was named, an entry with the endpoint
    as [Method], the number of its latencies as [CallCount], the number of
    its errors as [ErrorCount], the sum of its latencies as
    [TotalLatency], their mean rounded towards zero as [AverageLatency] (0
    for an endpoint with errors only) and the time of its last latency as
    [LastCall]; no entry for the other endpoints; the number of all errors;
    and the rounded mean of all latencies. *)
Theorem record_all_holds ms now :
  within_int64 ms →
  ∃ c, record_all ms (Collector.NewCollector now) = Some c ∧ holds ms c.
Proof.
  induction ms as [|m ms IH] using rev_ind; intros Hms.
  - eexists. split; [done|]. unfold holds. by split_and!.
  - destruct (IH (within_int64_prefix _ _ Hms)) as (c & Hc & Hholds).
    unfold record_all in *. rewrite foldl_app. simpl. rewrite Hc. simpl.
    destruct m as [ep d t|ep].
    + by apply RecordLatency_holds.
    + eexists. split; [done|]. by apply RecordError_holds.
Qed.

Lemma record_all_holds_witness :
  ∃ c,
    record_all
      [Latency "Vote" 30 1; Failure "Vote"; Latency "Vote" 51 2;
       Latency "GetFeed" 10 3; Failure "JoinSubreddit"]
      (Collector.NewCollector 0) = Some c
    ∧ Stats.EndpointStats (Collector.stats c) !! "Vote"
      = Some (EndpointStats.mk "Vote" 2 1 81 40 (Some 2))
    ∧ Stats.EndpointStats (Collector.stats c) !! "JoinSubreddit"
      = Some (EndpointStats.mk "JoinSubreddit" 0 1 0 0 None)
    ∧ Stats.EndpointStats (Collector.stats c) !! "CreatePost" = None
    ∧ Stats.ErrorCount (Collector.stats c) = 2
    ∧ Stats.AverageLatency (Collector.stats c) = 30.
Proof.
  destruct (record_all_holds
              [Latency "Vote" 30 1; Failure "Vote"; Latency "Vote" 51 2;
               Latency "GetFeed" 10 3; Failure "JoinSubreddit"] 0)
    as (c & Hc & _ & Hep & Herr & Havg).
  { split_and!; [|vm_compute; reflexivity..].
    repeat (apply Forall_cons; split; [lia|]). apply Forall_nil. done. }
  exists c. split; [exact Hc|].
  rewrite !Hep, Herr, Havg. split_and!; vm_compute; reflexivity.
Defined.

(** * The authorization of requests (internal/middleware/auth.go) *)

Lemma Split_nonempty s sep : Split s sep ≠ [].
Proof.
  destruct s as [|a s]; simpl; [done|]. case_decide; [done|].
  by destruct (Split s sep).
Qed.

Lemma Split_first s sep piece pieces :
  Split s sep = piece :: pieces →
  occurs sep piece = false
  ∧ ((pieces = [] ∧ s = piece)
     ∨ ∃ s', s = piece +:+ String sep s' ∧ pieces = Split s' sep).
Proof.
  revert piece pieces. induction s as [|a s IH]; intros piece pieces; simpl.
  - intros [= <- <-]. split; [done|]. by left.
  - case_decide as Ha.
    + subst a. intros [= <- <-]. split; [done|]. right. by exists s.
    + destruct (Split s sep) as [|p ps] eqn:Hs;
        [by destruct (Split_nonempty s sep)|].
      intros [= <- <-]. destruct (IH p ps eq_refl) as [Hp Hcases].
      split; [simpl; by rewrite bool_decide_eq_false_2|].
      destruct Hcases as [[-> ->]|(s' & -> & ->)]; [by left|].
      right. by exists s'.
Qed.

Lemma Split_none s sep : occurs sep s = false → Split s sep = [s].
Proof.
  induction s as [|a s IH]; simpl; [done|].
  intros [Ha Hs]%orb_false_iff. apply bool_decide_eq_false in Ha.
  by rewrite decide_False, IH.
Qed.

Lemma Split_cons s sep s' :
  occurs sep s = false →
  Split (s +:+ String sep s') sep = s :: Split s' sep.
Proof.
  induction s as [|a s IH]; simpl.
  - intros _. by rewrite decide_True.
  - intros [Ha Hs]%orb_false_iff. apply bool_decide_eq_false in Ha.
    by rewrite decide_False, IH.
Qed.

(** X23. [AuthMiddleware] lets a request through exactly when its
    Authorization header is the word Bearer, one space and a token without
    a space, and then takes the token itself as the user identifier: the
    token is not checked against anything, and the empty token passes too.
    An absent or empty header and every other header are answered with
    status 401. *)
Theorem AuthMiddleware_bearer authHeader :
  (∀ userID,
     AuthMiddleware authHeader = Next userID
     ↔ authHeader = "Bearer " +:+ userID ∧ occurs " "%char userID = false)
  ∧ (authHeader = "" →
     AuthMiddleware authHeader
     = HttpError "Authorization header required" 401)
  ∧ (∀ message code,
       AuthMiddleware authHeader = HttpError message code → code = 401)
  ∧ AuthMiddleware "Bearer " = Next "".
Proof.
  split_and!; [|by intros ->| |done].
  - intros userID. unfold AuthMiddleware. split.
    + case_decide as Hne; [done|].
      destruct (Split authHeader " "%char) as [|p0 [|p1 [|p2 ps]]] eqn:Hsplit;
        simpl; try done.
      case_bool_decide as H0; simpl; [|done]. intros [= <-].
      injection H0 as ->.
      apply Split_first in Hsplit as [_ [[? _]|(s' & -> & Hs')]]; [done|].
      symmetry in Hs'.
      apply Split_first in Hs' as [Hocc [[_ ->]|(s'' & _ & Hnil)]].
      * by split.
      * symmetry in Hnil. by destruct (Split_nonempty s'' " "%char).
    + intros [-> Hocc]. rewrite decide_False by done.
      change ("Bearer " +:+ userID) with ("Bearer" +:+ String " "%char userID).
      rewrite Split_cons by done. rewrite Split_none by done. done.
  - intros message code. unfold AuthMiddleware, StatusUnauthorized.
    repeat case_match; by intros [= <- <-].
Qed.

Lemma AuthMiddleware_bearer_witness :
  AuthMiddleware ("Bearer " +:+ uid_alice) = Next uid_alice
  ∧ AuthMiddleware "Basic YWxpY2U6cHc=" = HttpError "Invalid authorization format" 401
  ∧ AuthMiddleware "Bearer a b" = HttpError "Invalid authorization format" 401.
Proof.
  split_and!; [|vm_compute; reflexivity..].
  destruct (AuthMiddleware_bearer ("Bearer " +:+ uid_alice)) as (Hnext & _).
  apply Hnext. split; [done|]. vm_compute. reflexivity.
Defined.

(** The copy that [GetStats] makes leaves nothing out: it is equal to the
    statistics of the collector, entry by entry. *)
Lemma GetStats_copy c : Collector.GetStats c = Collector.stats c.
Proof.
  unfold Collector.GetStats. destruct (Collector.stats c). simpl. f_equal.
  - apply map_eq. intros k. rewrite lookup_fmap.
    destruct (_ !! k) as [[]|]; done.
  - apply map_eq. intros k. rewrite lookup_fmap.
    destruct (_ !! k) as [[]|]; done.
Qed.
